(** * internal/auth/security.py: credentials, bearer tokens and the blacklist

    A shallow embedding of [src/internal/auth/security.py].  The module is
    glue code over three libraries (passlib, PyJWT, Prisma); each library is
    given here as an explicit model of the calls the module makes, and the
    functions of the module are transcribed over those models line by line.

    - Python [str] and [bytes] are [string] (a sequence of bytes).
    - A function that may raise returns a [result]; the exception is a value.
    - [datetime.now(UTC)] is an explicit argument [now], in microseconds since
      the epoch (the resolution of [datetime]).
    - The database is an explicit value; the only writer is
      [JWTBlacklist.create]. *)

From Stdlib Require Import ZArith String Ascii List Bool Lia.
From stdpp Require Import base tactics option list countable strings gmap.
Import ListNotations.

Local Open Scope string_scope.
Local Open Scope Z_scope.

(** ** Exceptions and results *)

(** [fastapi.HTTPException(status_code, detail, headers)]. *)
Record HTTPException := mkHTTPException {
  status_code : Z;
  detail : string;
  headers : list (string * string)
}.

Definition HTTP_401_UNAUTHORIZED : Z := 401.

Definition CredentialException : HTTPException :=
  {| status_code := HTTP_401_UNAUTHORIZED;
     detail := "Credentials are not valid";
     headers := [("WWW-Authenticate", "Bearer")] |}.

Definition TokenExpiredException : HTTPException :=
  {| status_code := HTTP_401_UNAUTHORIZED;
     detail := "Token has expired";
     headers := [("WWW-Authenticate", "Bearer")] |}.

(** The exception classes of PyJWT that [jwt.encode] and [jwt.decode] raise
    on the paths modelled below. *)
Inductive jwt_exception :=
| DecodeError
| InvalidSignatureError
| InvalidAlgorithmError
| ExpiredSignatureError
| ImmatureSignatureError
| InvalidIssuedAtError
| InvalidAudienceError.

(** [issubclass(e, jwt.InvalidTokenError)]: every class above derives from
    [InvalidTokenError], [ExpiredSignatureError] included. *)
Definition is_InvalidTokenError (e : jwt_exception) : bool := true.

Definition is_ExpiredSignatureError (e : jwt_exception) : bool :=
  match e with ExpiredSignatureError => true | _ => false end.

(** Everything that can propagate out of a function of the module. *)
Inductive exn :=
| HTTP (e : HTTPException)
| Jwt (e : jwt_exception)
| NotImplementedError        (* jwt.encode: algorithm not in the registry *)
| TypeError                  (* json / int() on a value of the wrong type *)
| UnknownHashError           (* passlib: no scheme identifies the hash *)
| MalformedHashError         (* passlib: a ValueError while parsing a hash *)
| MissingDigestError         (* passlib: hash has salt but no checksum *)
| PasswordSizeError          (* passlib: secret longer than the maximum *)
| PasswordValueError         (* passlib: NUL byte in a bcrypt secret *)
| UniqueViolationError       (* prisma: unique constraint failed *)
| RecordNotFoundError.       (* prisma: record to connect does not exist *)

Inductive result (A : Type) :=
| Return (a : A)
| Raise (e : exn).
Arguments Return {A} a.
Arguments Raise {A} e.

(** The exception monad, with stdpp's notation [x ← c; k]: the first
    exception raised is the result. *)
#[global] Instance result_ret : MRet result := @Return.

#[global] Instance result_bind : MBind result := fun A B k r =>
  match r with
  | Return a => k a
  | Raise e => Raise e
  end.

(** [try: body except jwt.ExpiredSignatureError: raise h1
    except jwt.InvalidTokenError: raise h2]: the clauses are tried in
    order, and an exception that is no PyJWT exception passes through. *)
Definition try_except_jwt {A} (body : result A) (on_expired on_invalid : exn)
  : result A :=
  match body with
  | Raise (Jwt e) =>
      if is_ExpiredSignatureError e then Raise on_expired
      else if is_InvalidTokenError e then Raise on_invalid
      else Raise (Jwt e)
  | r => r
  end.

(** ** Strings as Python uses them *)

(** [s[n:]] *)
Fixpoint str_drop (n : nat) (s : string) : string :=
  match n, s with
  | O, _ => s
  | S n', String _ s' => str_drop n' s'
  | S _, EmptyString => EmptyString
  end.

(** [s[:n]] *)
Fixpoint str_take (n : nat) (s : string) : string :=
  match n, s with
  | O, _ => EmptyString
  | S n', String c s' => String c (str_take n' s')
  | S _, EmptyString => EmptyString
  end.

(** [s.startswith(p)] *)
Fixpoint startswith (p s : string) : bool :=
  match p, s with
  | EmptyString, _ => true
  | String a p', String b s' => Ascii.eqb a b && startswith p' s'
  | String _ _, EmptyString => false
  end.

(** [all(f(c) for c in s)] *)
Fixpoint str_forallb (f : ascii -> bool) (s : string) : bool :=
  match s with
  | EmptyString => true
  | String c s' => f c && str_forallb f s'
  end.

(** [c in s] *)
Fixpoint str_mem (c : ascii) (s : string) : bool :=
  match s with
  | EmptyString => false
  | String d s' => Ascii.eqb c d || str_mem c s'
  end.

(** [s.split(sep)] for a one-character separator: never empty. *)
Fixpoint split_on (sep : ascii) (s : string) : list string :=
  match s with
  | EmptyString => [EmptyString]
  | String c s' =>
      if Ascii.eqb c sep then EmptyString :: split_on sep s'
      else match split_on sep s' with
           | [] => [String c EmptyString]
           | w :: ws => String c w :: ws
           end
  end.

(** [s.split(sep, 1)] unpacked into two names: the text before and after the
    first separator; [None] is the [ValueError] of unpacking one element. *)
Fixpoint split_first (sep : ascii) (s : string) : option (string * string) :=
  match s with
  | EmptyString => None
  | String c s' =>
      if Ascii.eqb c sep then Some (EmptyString, s')
      else match split_first sep s' with
           | Some (a, b) => Some (String c a, b)
           | None => None
           end
  end.

(** [s.rsplit(sep, 1)] unpacked into two names: the text before and after
    the last separator. *)
Fixpoint rsplit_last (sep : ascii) (s : string) : option (string * string) :=
  match s with
  | EmptyString => None
  | String c s' =>
      match rsplit_last sep s' with
      | Some (a, b) => Some (String c a, b)
      | None => if Ascii.eqb c sep then Some (EmptyString, s') else None
      end
  end.

(** The i-th byte of [s] replaced by [c] (nothing changes out of range). *)
Fixpoint set_byte (i : nat) (c : ascii) (s : string) : string :=
  match s, i with
  | EmptyString, _ => EmptyString
  | String _ s', O => String c s'
  | String d s', S i' => String d (set_byte i' c s')
  end.

(** The i-th byte of [s]. *)
Fixpoint get_byte (i : nat) (s : string) : option ascii :=
  match s, i with
  | EmptyString, _ => None
  | String d _, O => Some d
  | String _ s', S i' => get_byte i' s'
  end.

Fixpoint str_index (c : ascii) (s : string) : option nat :=
  match s with
  | EmptyString => None
  | String d s' =>
      if Ascii.eqb c d then Some O else S <$> str_index c s'
  end.

(** [s[:-1] + f(s[-1])] *)
Fixpoint map_last (f : ascii -> ascii) (s : string) : string :=
  match s with
  | EmptyString => EmptyString
  | String c EmptyString => String (f c) EmptyString
  | String c s' => String c (map_last f s')
  end.

(** ** passlib: [PWD = CryptContext(schemes=["bcrypt"], deprecated="auto")]

    The context has one scheme, so [PWD.hash] is [bcrypt.hash] with the
    defaults (ident [2b], cost 12, a fresh random salt) and [PWD.verify]
    first identifies the hash and then calls [bcrypt.verify].  The Blowfish
    computation is the parameter [bcrypt_digest]; everything around it (the
    format of the hash string, its parsing, the checks on the secret) is
    modelled as passlib does it. *)

Definition bcrypt64_charmap : string :=
  "./ABCDEFGHIJKLMNOPQRSTUVWXYZabcdefghijklmnopqrstuvwxyz0123456789".

Definition in_bcrypt64 (c : ascii) : bool := str_mem c bcrypt64_charmap.

Definition bcrypt64_char (i : N) : ascii :=
  default "."%char (get_byte (N.to_nat i) bcrypt64_charmap).

(** [passlib.utils.getrandstr(rng, charset, count)]: one draw
    [value = rng.randrange(0, 64**count)], written in base 64, least
    significant digit first. *)
Fixpoint getrandstr (value : N) (count : nat) : string :=
  match count with
  | O => EmptyString
  | S n => String (bcrypt64_char (value mod 64)) (getrandstr (value / 64) n)
  end.

(** [Base64Engine.repair_unused]: the padding bits of the last character are
    cleared; [mask] is [0x30] for a string of length 2 mod 4 (the 22
    character salt) and [0x3C] for one of length 3 mod 4 (the 31 character
    checksum). *)
Definition clear_padding (mask : N) (c : ascii) : ascii :=
  match str_index c bcrypt64_charmap with
  | Some i => bcrypt64_char (N.land (N.of_nat i) mask)
  | None => c
  end.

Definition repair_salt (s : string) : string := map_last (clear_padding 48) s.
Definition repair_checksum (s : string) : string := map_last (clear_padding 60) s.

Definition SALT_CHARS : nat := 22.
Definition CHECKSUM_CHARS : nat := 31.
Definition MIN_ROUNDS : nat := 4.
Definition MAX_ROUNDS : nat := 31.
Definition DEFAULT_ROUNDS : nat := 12.
Definition MAX_PASSWORD_SIZE : nat := 4096.

Definition IDENT_2 : string := "$2$".
Definition IDENT_2A : string := "$2a$".
Definition IDENT_2X : string := "$2x$".
Definition IDENT_2Y : string := "$2y$".
Definition IDENT_2B : string := "$2b$".
Definition ident_values : list string :=
  [IDENT_2; IDENT_2A; IDENT_2X; IDENT_2Y; IDENT_2B].

(** A checksum as the backend returns it: 31 characters of the bcrypt
    alphabet with clear padding bits. *)
Definition checksum_ok (chk : string) : bool :=
  Nat.eqb (String.length chk) CHECKSUM_CHARS
  && str_forallb in_bcrypt64 chk
  && String.eqb (repair_checksum chk) chk.

(** The bcrypt backend: ident, cost, salt and secret to the encoded digest.
    (bcrypt reads at most the first 72 bytes of the secret; that is inside
    this function.) *)
Class BcryptBackend := {
  bcrypt_digest : string -> nat -> string -> string -> string;
  bcrypt_digest_ok : forall ident rounds salt secret,
    checksum_ok (bcrypt_digest ident rounds salt secret) = true
}.

(** A parsed hash: [bcrypt(ident=, rounds=, salt=, checksum=)]. *)
Record bcrypt_hash := mk_bcrypt_hash {
  bh_ident : string;
  bh_rounds : nat;
  bh_salt : string;
  bh_checksum : option string
}.

Definition digit_value (c : ascii) : option nat :=
  let n := nat_of_ascii c in
  if ((48 <=? n) && (n <=? 57))%nat then Some (n - 48)%nat else None.

Definition digit_char (n : nat) : ascii := ascii_of_nat (48 + n).

(** ["%02d" % n] for [0 <= n < 100]. *)
Definition fmt_02d (n : nat) : string :=
  String (digit_char (n / 10)) (String (digit_char (n mod 10)) EmptyString).

(** The cost field: [rounds = int(rounds_str)] followed by the check
    [rounds_str == "%02d" % rounds].  The strings that pass both and the
    range check [MIN_ROUNDS..MAX_ROUNDS] after them are the ones of two
    ASCII digits; every other string ends in a [ValueError]. *)
Definition parse_cost (rounds_str : string) : option nat :=
  match rounds_str with
  | String a (String b EmptyString) =>
      d1 ← digit_value a; d2 ← digit_value b; Some (10 * d1 + d2)%nat
  | _ => None
  end.

(** [bcrypt._parse_ident]: the first ident the hash starts with. *)
Definition parse_ident (hash : string) : option (string * string) :=
  (fun ident => (ident, str_drop (String.length ident) hash))
    <$> List.find (fun ident => startswith ident hash) ident_values.

(** [CryptContext.identify]: the one scheme recognises a hash by its ident. *)
Definition identify (hash : string) : bool :=
  existsb (fun ident => startswith ident hash) ident_values.

(** [uh.validate_secret]: the size limit on a secret. *)
Definition validate_secret (secret : string) : result unit :=
  if (MAX_PASSWORD_SIZE <? String.length secret)%nat
  then Raise PasswordSizeError else Return tt.

(** The checks of the [bcrypt] constructor on parsed fields; each failure is
    a [ValueError]. *)
Definition norm_checksum (chk : string) : result (option string) :=
  if String.eqb chk EmptyString then Return None
  else if negb (Nat.eqb (String.length chk) CHECKSUM_CHARS)
  then Raise MalformedHashError
  else if negb (str_forallb in_bcrypt64 chk) then Raise MalformedHashError
  else Return (Some (repair_checksum chk)).

Definition norm_rounds (rounds : nat) : result nat :=
  if ((rounds <? MIN_ROUNDS) || (MAX_ROUNDS <? rounds))%nat
  then Raise MalformedHashError else Return rounds.

Definition norm_salt (salt : string) : result string :=
  if negb (Nat.eqb (String.length salt) SALT_CHARS)
  then Raise MalformedHashError
  else if negb (str_forallb in_bcrypt64 salt) then Raise MalformedHashError
  else Return (repair_salt salt).

(** [bcrypt.from_string(hash)] *)
Definition from_string (hash : string) : result bcrypt_hash :=
  match parse_ident hash with
  | None => Raise MalformedHashError
  | Some (ident, tail) =>
      if String.eqb ident IDENT_2X then Raise MalformedHashError
      else
        match split_on "$" tail with
        | [rounds_str; data] =>
            match parse_cost rounds_str with
            | None => Raise MalformedHashError
            | Some rounds =>
                let salt := str_take SALT_CHARS data in
                let chk := str_drop SALT_CHARS data in
                checksum ← norm_checksum chk;
                rounds ← norm_rounds rounds;
                salt ← norm_salt salt;
                Return (mk_bcrypt_hash ident rounds salt checksum)
            end
        | _ => Raise MalformedHashError
        end
  end.

(** [bcrypt.to_string] *)
Definition to_string (h : bcrypt_hash) : string :=
  bh_ident h +:+ fmt_02d (bh_rounds h) +:+ "$" +:+ bh_salt h
    +:+ default EmptyString (bh_checksum h).

Section Passlib.
Context `{BcryptBackend}.

(** [bcrypt._calc_checksum] with [_norm_digest_args]: the secret is
    checked for size and for NUL bytes, which bcrypt cannot represent. *)
Definition calc_checksum (ident : string) (rounds : nat) (salt secret : string)
  : result string :=
  _ ← validate_secret secret;
  if str_mem zero secret then Raise PasswordValueError
  else Return (bcrypt_digest ident rounds salt secret).

(** [PWD.hash(secret)]; [rng] is the value the random generator draws for
    the salt. *)
Definition PWD_hash (rng : N) (secret : string) : result string :=
  _ ← validate_secret secret;
  let salt := repair_salt (getrandstr rng SALT_CHARS) in
  checksum ← calc_checksum IDENT_2B DEFAULT_ROUNDS salt secret;
  Return (to_string (mk_bcrypt_hash IDENT_2B DEFAULT_ROUNDS salt (Some checksum))).

(** [bcrypt.verify(secret, hash)] *)
Definition bcrypt_verify (secret hash : string) : result bool :=
  _ ← validate_secret secret;
  h ← from_string hash;
  match bh_checksum h with
  | None => Raise MissingDigestError
  | Some chk =>
      computed ← calc_checksum (bh_ident h) (bh_rounds h) (bh_salt h) secret;
      Return (String.eqb computed chk)
  end.

(** [PWD.verify(secret, hash)] for a [str] hash. *)
Definition PWD_verify (secret hash : string) : result bool :=
  if identify hash then bcrypt_verify secret hash
  else Raise UnknownHashError.

(** *** security.py, lines 36-58 *)

Definition generate_password_hash (rng : N) (password : string) : result string :=
  PWD_hash rng password.

Definition verify_password (plain_password hashed_password : string)
  : result bool :=
  PWD_verify plain_password hashed_password.

End Passlib.

(** ** PyJWT: [jwt.encode] and [jwt.decode]

    The model follows PyJWT 2.x ([api_jwt.py], [api_jws.py]).  A token is
    the string [b64(header) . b64(payload) . b64(signature)], the signature
    being computed over the first two segments as they stand in the token.
    Base64, JSON and the keyed hash are parameters with the laws below;
    the splitting of a token, the order of the checks and the exception
    each one raises are written out. *)

(** A decoded JSON value.  [JOther] is any value that is no null, boolean,
    integer or string (a float, an array, an object), by its JSON text. *)
Inductive json_value :=
| JNull
| JBool (b : bool)
| JInt (n : Z)
| JStr (s : string)
| JOther (text : string).

(** A value of a payload handed to [jwt.encode]. *)
Inductive py_value :=
| PyStr (s : string)
| PyDatetime (t : Z).          (* an aware UTC datetime, in microseconds *)

(** What [int(v)] does. *)
Inductive int_result :=
| IntOk (n : Z)
| IntValueError
| IntTypeError.

Definition is_plain (v : json_value) : bool :=
  match v with JOther _ => false | _ => true end.

Class JwtBackend := {
  (** [jwt.utils.base64url_encode] and [base64url_decode]; [None] is the
      [binascii.Error] of a wrong padding. *)
  base64url_encode : string -> string;
  base64url_decode : string -> option string;
  (** [json.dumps(obj, separators=(",", ":"))] of a dict, and [json.loads]
      followed by the check that the value is a dict; [None] is a text that
      is no JSON or no JSON object. *)
  json_dumps : gmap string json_value -> string;
  json_loads : string -> option (gmap string json_value);
  (** The registry of signing algorithms, restricted to the keyed-hash
      (HMAC) class: [sign key msg]. Verification recomputes the digest. *)
  get_algorithm_by_name : string -> option (string -> string -> string);
  (** [int(s)] for a string, and [int(v)], [bool(v)] for a [JOther]. *)
  int_of_str : string -> option Z;
  int_of_other : string -> int_result;
  bool_of_other : string -> bool;

  base64url_decode_encode : forall b,
    base64url_decode (base64url_encode b) = Some b;
  base64url_encode_no_dot : forall b,
    str_mem "." (base64url_encode b) = false;
  json_loads_dumps : forall obj : gmap string json_value,
    map_Forall (fun _ v => is_plain v = true) obj ->
    json_loads (json_dumps obj) = Some obj;
  (** No algorithm is registered under the empty name. *)
  get_algorithm_by_name_empty : get_algorithm_by_name EmptyString = None
}.

Definition MICROSECONDS : Z := 1000000.

(** [timedelta(minutes=m)] in microseconds. *)
Definition timedelta_minutes (m : Z) : Z := m * 60 * MICROSECONDS.

(** [calendar.timegm(dt.utctimetuple())]: whole seconds since the epoch; the
    microseconds are dropped. *)
Definition timegm (dt : Z) : Z := dt / MICROSECONDS.

Definition time_claims : list string := ["exp"; "iat"; "nbf"].

(** The value [json.dumps] receives for the claim [k]: [jwt.encode] turns a
    datetime under [exp], [iat] or [nbf] into an integer; a datetime
    anywhere else is not JSON serializable. *)
Definition json_of_py (k : string) (v : py_value) : option json_value :=
  match v with
  | PyStr s => Some (JStr s)
  | PyDatetime t =>
      if bool_decide (k ∈ time_claims) then Some (JInt (timegm t)) else None
  end.

Definition json_payload_of (payload : gmap string py_value)
  : result (gmap string json_value) :=
  if bool_decide (map_Forall (fun k v => is_Some (json_of_py k v)) payload)
  then Return (map_imap json_of_py payload)
  else Raise TypeError.

(** [{"typ": "JWT", "alg": algorithm}] *)
Definition jws_header (algorithm : string) : gmap string json_value :=
  <["alg" := JStr algorithm]> {["typ" := JStr "JWT"]}.

Definition dot : string := ".".

Section PyJWT.
Context `{JwtBackend}.

Definition py_int (v : json_value) : int_result :=
  match v with
  | JInt n => IntOk n
  | JBool b => IntOk (Z.b2z b)
  | JNull => IntTypeError
  | JStr s => from_option IntOk IntValueError (int_of_str s)
  | JOther text => int_of_other text
  end.

(** [bool(v)] *)
Definition py_truthy (v : json_value) : bool :=
  match v with
  | JNull => false
  | JBool b => b
  | JInt n => negb (n =? 0)
  | JStr s => negb (String.eqb s EmptyString)
  | JOther text => bool_of_other text
  end.

Definition header_segment (algorithm : string) : string :=
  base64url_encode (json_dumps (jws_header algorithm)).

Definition payload_segment (claims : gmap string json_value) : string :=
  base64url_encode (json_dumps claims).

(** [jwt.encode(payload, key, algorithm)] *)
Definition jwt_encode (payload : gmap string py_value) (key algorithm : string)
  : result string :=
  claims ← json_payload_of payload;
  let signing_input :=
    header_segment algorithm +:+ dot +:+ payload_segment claims in
  match get_algorithm_by_name algorithm with
  | None => Raise NotImplementedError
  | Some sign =>
      Return (signing_input +:+ dot +:+ base64url_encode (sign key signing_input))
  end.

(** [PyJWS._load]: the token is split at its last dot and the rest at its
    first; header, payload and signature are base64-decoded, and the
    header parsed, before any signature is looked at. *)
Definition jws_load (token : string)
  : result (string * string * gmap string json_value * string) :=
  match rsplit_last "." token with
  | None => Raise (Jwt DecodeError)
  | Some (signing_input, crypto_segment) =>
      match split_first "." signing_input with
      | None => Raise (Jwt DecodeError)
      | Some (header_seg, payload_seg) =>
          match base64url_decode header_seg with
          | None => Raise (Jwt DecodeError)
          | Some header_data =>
              match json_loads header_data with
              | None => Raise (Jwt DecodeError)
              | Some header =>
                  match base64url_decode payload_seg with
                  | None => Raise (Jwt DecodeError)
                  | Some payload =>
                      match base64url_decode crypto_segment with
                      | None => Raise (Jwt DecodeError)
                      | Some signature =>
                          Return (payload, signing_input, header, signature)
                      end
                  end
              end
          end
      end
  end.

(** [PyJWS._verify_signature] *)
Definition verify_signature (signing_input : string)
    (header : gmap string json_value) (signature key : string)
    (algorithms : list string) : result unit :=
  match header !! "alg" with
  | None => Raise (Jwt InvalidAlgorithmError)
  | Some (JStr alg) =>
      if String.eqb alg EmptyString || negb (bool_decide (alg ∈ algorithms))
      then Raise (Jwt InvalidAlgorithmError)
      else
        match get_algorithm_by_name alg with
        | None => Raise (Jwt InvalidAlgorithmError)
        | Some sign =>
            if String.eqb signature (sign key signing_input) then Return tt
            else Raise (Jwt InvalidSignatureError)
        end
  | Some _ => Raise (Jwt InvalidAlgorithmError)
  end.

(** [PyJWT._validate_claims] with the default options, no audience, no
    issuer and no leeway; [now] is the clock, in microseconds.  The claims
    are checked in the order [iat], [nbf], [exp], [aud]. *)
Definition validate_iat (payload : gmap string json_value) (now : Z) : result unit :=
  match payload !! "iat" with
  | None => Return tt
  | Some v =>
      match py_int v with
      | IntValueError => Raise (Jwt InvalidIssuedAtError)
      | IntTypeError => Raise TypeError
      | IntOk iat =>
          if now <? iat * MICROSECONDS then Raise (Jwt ImmatureSignatureError)
          else Return tt
      end
  end.

Definition validate_nbf (payload : gmap string json_value) (now : Z) : result unit :=
  match payload !! "nbf" with
  | None => Return tt
  | Some v =>
      match py_int v with
      | IntValueError => Raise (Jwt DecodeError)
      | IntTypeError => Raise TypeError
      | IntOk nbf =>
          if now <? nbf * MICROSECONDS then Raise (Jwt ImmatureSignatureError)
          else Return tt
      end
  end.

(** [if exp <= now: raise ExpiredSignatureError] *)
Definition validate_exp (payload : gmap string json_value) (now : Z) : result unit :=
  match payload !! "exp" with
  | None => Return tt
  | Some v =>
      match py_int v with
      | IntValueError => Raise (Jwt DecodeError)
      | IntTypeError => Raise TypeError
      | IntOk exp =>
          if exp * MICROSECONDS <=? now then Raise (Jwt ExpiredSignatureError)
          else Return tt
      end
  end.

Definition validate_aud (payload : gmap string json_value) : result unit :=
  match payload !! "aud" with
  | None => Return tt
  | Some v => if py_truthy v then Raise (Jwt InvalidAudienceError) else Return tt
  end.

Definition validate_claims (payload : gmap string json_value) (now : Z)
  : result unit :=
  _ ← validate_iat payload now;
  _ ← validate_nbf payload now;
  _ ← validate_exp payload now;
  validate_aud payload.

(** [jwt.decode(token, key, algorithms=algorithms)] at clock [now]. *)
Definition jwt_decode (token key : string) (algorithms : list string) (now : Z)
  : result (gmap string json_value) :=
  match algorithms with
  | [] => Raise (Jwt DecodeError)
  | _ =>
      '(payload_data, signing_input, header, signature) ← jws_load token;
      match header !! "b64" with
      | Some (JBool false) =>
          Raise (Jwt DecodeError)         (* a detached payload is required *)
      | _ =>
          _ ← verify_signature signing_input header signature key algorithms;
          match json_loads payload_data with
          | None => Raise (Jwt DecodeError)
          | Some payload =>
              _ ← validate_claims payload now;
              Return payload
          end
      end
  end.

End PyJWT.

(** ** Prisma: the tables behind [internal.db.User] and [internal.db.JWTBlacklist] *)

(** [prisma.models.JwtBlacklist]: a row of the blacklist, with the foreign
    key of the relation [user]. *)
Record JwtBlacklistRecord := mkJwtBlacklist {
  token : string;
  user_id : Z
}.

(** [prisma.models.User] as a query returns it; [jwt_blacklist] is the
    relation, loaded only on [include={"jwt_blacklist": True}]. *)
Record UserRecord := mkUser {
  id : Z;
  email : string;
  password : string;
  jwt_blacklist : option (list JwtBlacklistRecord)
}.

(** A stored row of the table [User]. *)
Record UserRow := mkUserRow {
  row_id : Z;
  row_email : string;
  row_password : string
}.

Record Database := mkDatabase {
  users : list UserRow;
  blacklist : list JwtBlacklistRecord
}.

(** What [security.py] imports from files of the repository that are not
    under [src/]: the settings, the schema [TokenData] and the Prisma schema.
    They are parameters of the development. *)
Class Imports := {
  (** [internal.settings] *)
  SECRET_KEY : string;
  ALGORITHM : string;
  ACCESS_TOKEN_EXPIRE_MINUTES : Z;
  (** [internal.auth.schemas.TokenData(email=v)] for a [sub] claim that is
      neither a string nor null: the validated email, or the error raised. *)
  TokenData_of_json : json_value -> result string;
  (** [schema.prisma]: whether [JwtBlacklist.token] is declared [@unique]. *)
  token_unique : bool
}.

Definition blacklist_of (db : Database) (uid : Z) : list JwtBlacklistRecord :=
  List.filter (fun e => user_id e =? uid) (blacklist db).

Definition to_record (db : Database) (include_blacklist : bool) (r : UserRow)
  : UserRecord :=
  {| id := row_id r;
     email := row_email r;
     password := row_password r;
     jwt_blacklist :=
       if include_blacklist then Some (blacklist_of db (row_id r)) else None |}.

(** [User.find_first(where={"email": e}, include={"jwt_blacklist": b})] *)
Definition User_find_first (db : Database) (e : string) (include_blacklist : bool)
  : option UserRecord :=
  to_record db include_blacklist
    <$> List.find (fun r => String.eqb (row_email r) e) (users db).

(** [JWTBlacklist.create({"token": t, "user": {"connect": {"id": uid}}})]:
    the new state and the row, or the error of the engine.  The user to
    connect must exist; a token already stored violates the unique
    constraint when the schema declares one. *)
Definition JWTBlacklist_create `{Imports} (db : Database) (t : string) (uid : Z)
  : result JwtBlacklistRecord * Database :=
  if negb (existsb (fun r => row_id r =? uid) (users db))
  then (Raise RecordNotFoundError, db)
  else if token_unique && existsb (fun e => String.eqb (token e) t) (blacklist db)
  then (Raise UniqueViolationError, db)
  else
    let row := mkJwtBlacklist t uid in
    (Return row, {| users := users db; blacklist := blacklist db ++ [row] |}).

(** [any(xs)] over model objects, each of which is truthy. *)
Definition any {A} (xs : list A) : bool :=
  match xs with [] => false | _ :: _ => true end.

(** ** security.py, lines 61-161 *)

Section Security.
Context `{BcryptBackend} `{JwtBackend} `{Imports}.

(** The result [False] is [None]. *)
Definition authenticate_user (db : Database) (email_ password_ : string)
  : result (option UserRecord) :=
  let user := User_find_first db email_ false in
  match user with
  | None => Return None
  | Some user =>
      ok ← verify_password password_ (password user);
      if negb ok then Return None else Return (Some user)
  end.

Definition create_access_token (now : Z) (data : gmap string string)
  : result string :=
  let to_encode : gmap string py_value := PyStr <$> data in
  let expire := now + timedelta_minutes ACCESS_TOKEN_EXPIRE_MINUTES in
  let to_encode := <["exp" := PyDatetime expire]> to_encode in
  jwt_encode to_encode SECRET_KEY ALGORITHM.

Definition login_for_access_token (db : Database) (now : Z)
    (email_ password_ : string) : result (gmap string string) :=
  user ← authenticate_user db email_ password_;
  match user with
  | None => Raise (HTTP CredentialException)
  | Some user =>
      access_token ← create_access_token now {["sub" := email user]};
      Return (<["token_type" := "bearer"]> {["access_token" := access_token]})
  end.

(** Lines 122-131: the [try] block of [get_current_user], giving
    [token_data.email]. *)
Definition decode_token_data (now : Z) (token_ : string) : result string :=
  try_except_jwt
    (payload ← jwt_decode token_ SECRET_KEY [ALGORITHM] now;
     match payload !! "sub" with
     | None | Some JNull => Raise (HTTP CredentialException)
     | Some (JStr email_) => Return email_
     | Some v => TokenData_of_json v
     end)
    (HTTP TokenExpiredException)
    (HTTP CredentialException).

Definition get_current_user (db : Database) (now : Z) (token_ : string)
  : result UserRecord :=
  token_data_email ← decode_token_data now token_;
  let user := User_find_first db token_data_email true in
  match user with
  | None => Raise (HTTP CredentialException)
  | Some user =>
      match jwt_blacklist user with
      | None => Raise TypeError
      | Some entries =>
          if any (List.filter (fun x => String.eqb (token x) token_) entries)
          then Raise (HTTP TokenExpiredException)
          else Return user
      end
  end.

Definition add_access_token_blacklist (db : Database) (token_ : string)
    (user : UserRecord) : result unit * Database :=
  let '(r, db') := JWTBlacklist_create db token_ (id user) in
  (_ ← r; Return tt, db').

End Security.

(** * Properties *)

(** ** Strings *)

Lemma str_app_cons d a b : String d a +:+ b = String d (a +:+ b).
Proof. reflexivity. Qed.

Lemma str_app_nil b : EmptyString +:+ b = b.
Proof. reflexivity. Qed.

Lemma str_mem_app c a b : str_mem c (a +:+ b) = str_mem c a || str_mem c b.
Proof.
  induction a as [|d a IH]; [done|].
  rewrite str_app_cons. cbn [str_mem]. by rewrite IH, orb_assoc.
Qed.

Lemma str_forallb_app f a b :
  str_forallb f (a +:+ b) = str_forallb f a && str_forallb f b.
Proof.
  induction a as [|d a IH]; [done|].
  rewrite str_app_cons. cbn [str_forallb]. by rewrite IH, andb_assoc.
Qed.

Lemma str_length_app a b :
  String.length (a +:+ b) = (String.length a + String.length b)%nat.
Proof.
  induction a as [|d a IH]; [done|].
  rewrite str_app_cons. cbn [String.length]. by rewrite IH.
Qed.

Lemma str_take_app a b : str_take (String.length a) (a +:+ b) = a.
Proof.
  induction a as [|d a IH]; [by destruct b|].
  rewrite str_app_cons. cbn [String.length str_take]. by rewrite IH.
Qed.

Lemma str_drop_app a b : str_drop (String.length a) (a +:+ b) = b.
Proof.
  induction a as [|d a IH]; [done|].
  rewrite str_app_cons. cbn [String.length str_drop]. done.
Qed.

Lemma split_on_no_sep sep s : str_mem sep s = false -> split_on sep s = [s].
Proof.
  induction s as [|c s IH]; [done|].
  cbn [str_mem split_on]. intros [Hc Hs]%orb_false_elim.
  rewrite Ascii.eqb_sym, Hc, (IH Hs). done.
Qed.

Lemma split_on_app sep a b :
  str_mem sep a = false ->
  split_on sep (a +:+ String sep b) = a :: split_on sep b.
Proof.
  induction a as [|c a IH].
  - intros _. rewrite str_app_nil. cbn [split_on]. by rewrite Ascii.eqb_refl.
  - rewrite str_app_cons. cbn [str_mem split_on].
    intros [Hc Ha]%orb_false_elim.
    rewrite Ascii.eqb_sym, Hc, (IH Ha). done.
Qed.

Lemma split_first_app sep a b :
  str_mem sep a = false ->
  split_first sep (a +:+ String sep b) = Some (a, b).
Proof.
  induction a as [|c a IH].
  - intros _. rewrite str_app_nil. cbn [split_first]. by rewrite Ascii.eqb_refl.
  - rewrite str_app_cons. cbn [str_mem split_first].
    intros [Hc Ha]%orb_false_elim.
    rewrite Ascii.eqb_sym, Hc, (IH Ha). done.
Qed.

Lemma rsplit_last_no_sep sep s : str_mem sep s = false -> rsplit_last sep s = None.
Proof.
  induction s as [|c s IH]; [done|].
  cbn [str_mem rsplit_last]. intros [Hc Hs]%orb_false_elim.
  rewrite (IH Hs), Ascii.eqb_sym, Hc. done.
Qed.

Lemma rsplit_last_app sep a b :
  str_mem sep b = false ->
  rsplit_last sep (a +:+ String sep b) = Some (a, b).
Proof.
  intros Hb. induction a as [|c a IH].
  - rewrite str_app_nil. cbn [rsplit_last].
    by rewrite (rsplit_last_no_sep _ _ Hb), Ascii.eqb_refl.
  - rewrite str_app_cons. cbn [rsplit_last]. by rewrite IH.
Qed.

Lemma str_app_assoc a b c : (a +:+ b) +:+ c = a +:+ (b +:+ c).
Proof.
  induction a as [|d a IH]; [done|]. rewrite !str_app_cons. by rewrite IH.
Qed.

Lemma str_app_inv_head a b c : a +:+ b = a +:+ c -> b = c.
Proof.
  induction a as [|d a IH]; [done|]. rewrite !str_app_cons. intros [= ?]. auto.
Qed.

Lemma set_byte_length i c s : String.length (set_byte i c s) = String.length s.
Proof.
  revert i. induction s as [|d s IH]; intros [|i]; cbn; try done.
  by rewrite IH.
Qed.

Lemma set_byte_changes i c s d :
  get_byte i s = Some d -> c <> d -> set_byte i c s <> s.
Proof.
  revert i. induction s as [|e s IH]; intros [|i]; cbn; try done.
  - intros [= ->] Hne [= ?]. done.
  - intros Hg Hne [= Heq]. by eapply IH.
Qed.

Lemma map_last_cons f c d s :
  map_last f (String c (String d s)) = String c (map_last f (String d s)).
Proof. reflexivity. Qed.

Lemma map_last_length f s : String.length (map_last f s) = String.length s.
Proof.
  induction s as [|c s IH]; [done|].
  destruct s as [|d s]; [done|].
  rewrite map_last_cons. cbn [String.length] in *. by rewrite IH.
Qed.

Lemma map_last_idem f s :
  (forall c, f (f c) = f c) -> map_last f (map_last f s) = map_last f s.
Proof.
  intros Hf. induction s as [|c s IH]; [done|].
  destruct s as [|d s]; [cbn; by rewrite Hf|].
  rewrite map_last_cons.
  destruct (map_last f (String d s)) as [|e t] eqn:E.
  - pose proof (map_last_length f (String d s)) as Hl. rewrite E in Hl. done.
  - rewrite map_last_cons. by rewrite IH.
Qed.

Lemma map_last_forallb (f : ascii -> ascii) (p : ascii -> bool) s :
  (forall c, p (f c) = p c) -> str_forallb p (map_last f s) = str_forallb p s.
Proof.
  intros Hf. induction s as [|c s IH]; [done|].
  destruct s as [|d s]; [cbn; by rewrite Hf|].
  rewrite map_last_cons. cbn [str_forallb] in *. by rewrite IH.
Qed.

(** ** passlib *)

Lemma get_byte_default_forallb (p : ascii -> bool) s n dflt :
  str_forallb p s = true -> p dflt = true ->
  p (default dflt (get_byte n s)) = true.
Proof.
  revert n. induction s as [|c s IH]; intros [|n]; cbn; try done.
  - by intros [? _]%andb_prop _.
  - intros [_ ?]%andb_prop ?. by apply IH.
Qed.

Lemma bcrypt64_char_ok i : in_bcrypt64 (bcrypt64_char i) = true.
Proof. by apply get_byte_default_forallb. Qed.

Lemma clear_padding_ok mask c : in_bcrypt64 (clear_padding mask c) = in_bcrypt64 c.
Proof.
  unfold clear_padding. destruct (str_index c bcrypt64_charmap) as [i|] eqn:E; [|done].
  rewrite bcrypt64_char_ok. symmetry.
  assert (forall s, str_index c s = Some i -> str_mem c s = true) as Hmem; [|by eapply Hmem].
  clear. intros s. revert i. induction s as [|d s IH]; intros i; cbn; [done|].
  destruct (Ascii.eqb c d); [done|]. destruct (str_index c s); [|done]. eauto.
Qed.

Lemma clear_padding_idem_salt c :
  clear_padding 48 (clear_padding 48 c) = clear_padding 48 c.
Proof. destruct c as [[] [] [] [] [] [] [] []]; vm_compute; reflexivity. Qed.

Lemma getrandstr_length v n : String.length (getrandstr v n) = n.
Proof. revert v. induction n as [|n IH]; intros v; cbn; [done | by rewrite IH]. Qed.

Lemma getrandstr_charset v n : str_forallb in_bcrypt64 (getrandstr v n) = true.
Proof.
  revert v. induction n as [|n IH]; intros v; [done|].
  cbn [getrandstr str_forallb]. by rewrite bcrypt64_char_ok, IH.
Qed.

Lemma bcrypt64_no_dollar s :
  str_forallb in_bcrypt64 s = true -> str_mem "$" s = false.
Proof.
  induction s as [|c s IH]; [done|].
  cbn [str_forallb str_mem]. intros [Hc Hs]%andb_prop. rewrite (IH Hs), orb_false_r.
  destruct (Ascii.eqb "$" c) eqn:E; [|done].
  apply Ascii.eqb_eq in E as <-. done.
Qed.

(** The salt [PWD.hash] draws is one the parser accepts unchanged. *)
Lemma norm_salt_generated rng :
  norm_salt (repair_salt (getrandstr rng SALT_CHARS))
  = Return (repair_salt (getrandstr rng SALT_CHARS)).
Proof.
  unfold norm_salt, repair_salt.
  rewrite map_last_length, getrandstr_length, Nat.eqb_refl.
  rewrite (map_last_forallb _ _ _ (clear_padding_ok 48)), getrandstr_charset.
  cbn [negb]. by rewrite (map_last_idem _ _ clear_padding_idem_salt).
Qed.

Lemma norm_checksum_ok chk :
  checksum_ok chk = true -> norm_checksum chk = Return (Some chk).
Proof.
  unfold checksum_ok, norm_checksum.
  intros [[Hl Hc]%andb_prop Hr]%andb_prop.
  destruct (String.eqb chk EmptyString) eqn:E.
  { apply String.eqb_eq in E as ->. done. }
  rewrite Hl, Hc. cbn [negb]. by apply String.eqb_eq in Hr as ->.
Qed.

Lemma to_string_default salt chk :
  to_string (mk_bcrypt_hash IDENT_2B DEFAULT_ROUNDS salt (Some chk))
  = "$2b$" +:+ ("12" +:+ String "$" (salt +:+ chk)).
Proof. reflexivity. Qed.

Lemma parse_ident_2b rest : parse_ident ("$2b$" +:+ rest) = Some (IDENT_2B, rest).
Proof. reflexivity. Qed.

Lemma identify_2b rest : identify ("$2b$" +:+ rest) = true.
Proof. reflexivity. Qed.

(** [from_string] inverts [to_string] on a hash with the default ident and
    cost, a generated salt and a checksum of the backend. *)
Lemma from_string_to_string rng chk :
  checksum_ok chk = true ->
  let salt := repair_salt (getrandstr rng SALT_CHARS) in
  from_string (to_string (mk_bcrypt_hash IDENT_2B DEFAULT_ROUNDS salt (Some chk)))
  = Return (mk_bcrypt_hash IDENT_2B DEFAULT_ROUNDS salt (Some chk)).
Proof.
  intros Hchk salt.
  assert (String.length salt = SALT_CHARS) as Hlen.
  { unfold salt, repair_salt. by rewrite map_last_length, getrandstr_length. }
  assert (str_forallb in_bcrypt64 salt = true) as Hsalt.
  { unfold salt, repair_salt.
    by rewrite (map_last_forallb _ _ _ (clear_padding_ok 48)), getrandstr_charset. }
  pose proof Hchk as [[_ Hc]%andb_prop _]%andb_prop.
  unfold from_string. rewrite to_string_default, parse_ident_2b.
  change (String.eqb IDENT_2B IDENT_2X) with false. cbv iota.
  rewrite split_on_app by done.
  rewrite split_on_no_sep
    by (rewrite str_mem_app, !bcrypt64_no_dollar; done).
  change (parse_cost "12") with (Some DEFAULT_ROUNDS).
  cbv iota beta zeta.
  assert (str_take SALT_CHARS (salt +:+ chk) = salt) as ->
    by (rewrite <- Hlen; apply str_take_app).
  assert (str_drop SALT_CHARS (salt +:+ chk) = chk) as ->
    by (rewrite <- Hlen; apply str_drop_app).
  rewrite (norm_checksum_ok _ Hchk).
  cbn [mbind result_bind]. change (norm_rounds DEFAULT_ROUNDS) with (Return DEFAULT_ROUNDS).
  cbv iota beta. unfold salt at 1. rewrite norm_salt_generated. done.
Qed.

(** [isinstance(e, ValueError)]: passlib's [UnknownHashError],
    [PasswordValueError] and its subclass [PasswordSizeError] derive from
    [ValueError]; [MalformedHashError] and [MissingDigestError] build one. *)
Definition is_ValueError (e : exn) : bool :=
  match e with
  | UnknownHashError | MalformedHashError | MissingDigestError
  | PasswordSizeError | PasswordValueError => true
  | _ => false
  end.

(** *** The format of a bcrypt hash

    The modular crypt format of bcrypt, written down from the layout of the
    string and not from the parser: an ident, a cost of two decimal digits
    between 04 and 31, a dollar sign, and 53 characters of the bcrypt
    alphabet (22 of salt, 31 of checksum), as in
    [$2b$12$] followed by salt and checksum.  The ident [$2x$] is not
    supported. *)
Definition supported_idents : list string := ["$2$"; "$2a$"; "$2y$"; "$2b$"].

Definition is_digit (c : ascii) : bool :=
  ((48 <=? nat_of_ascii c) && (nat_of_ascii c <=? 57))%nat.

Definition cost_of_digits (a b : ascii) : nat :=
  (10 * (nat_of_ascii a - 48) + (nat_of_ascii b - 48))%nat.

Definition bcrypt_fields_format (fields : string) : bool :=
  match fields with
  | String a (String b (String d rest)) =>
      is_digit a && is_digit b
      && (4 <=? cost_of_digits a b)%nat && (cost_of_digits a b <=? 31)%nat
      && Ascii.eqb d "$"
      && Nat.eqb (String.length rest) 53
      && str_forallb in_bcrypt64 rest
  | _ => false
  end.

Definition bcrypt_format (h : string) : bool :=
  existsb (fun ident =>
             startswith ident h
             && bcrypt_fields_format (str_drop (String.length ident) h))
          supported_idents.

Lemma startswith_app p s :
  startswith p s = true -> s = p +:+ str_drop (String.length p) s.
Proof.
  revert s. induction p as [|a p IH]; intros [|b s]; cbn; try done.
  intros [Hab Hp]%andb_prop. apply Ascii.eqb_eq in Hab as ->.
  rewrite str_app_cons. f_equal. by apply IH.
Qed.

Lemma str_take_drop n s : str_take n s +:+ str_drop n s = s.
Proof.
  revert s. induction n as [|n IH]; intros [|c s]; cbn [str_take str_drop]; try done.
  rewrite str_app_cons. by rewrite IH.
Qed.

Lemma split_on_nonempty sep s : split_on sep s <> [].
Proof.
  destruct s as [|c s]; [done|]. cbn [split_on].
  destruct (Ascii.eqb c sep); [done|]. by destruct (split_on sep s).
Qed.

Lemma split_on_one sep s a : split_on sep s = [a] -> s = a.
Proof.
  revert a. induction s as [|c s IH]; intros a; cbn [split_on]; [by intros [= <-]|].
  pose proof (split_on_nonempty sep s) as Hne.
  destruct (Ascii.eqb c sep); [by intros [= _ ?]|].
  destruct (split_on sep s) as [|w ws] eqn:E; [done|].
  intros [= <- ->]. f_equal. by apply IH.
Qed.

(** [split_on] returning two fields gives back the string around its one
    separator. *)
Lemma split_on_two sep s a b :
  split_on sep s = [a; b] -> s = a +:+ String sep b.
Proof.
  revert a. induction s as [|c s IH]; intros a; [done|]. cbn [split_on].
  destruct (Ascii.eqb c sep) eqn:Ec.
  - apply Ascii.eqb_eq in Ec as ->. intros [= <- Hs]. rewrite str_app_nil. f_equal.
    by apply (split_on_one sep).
  - destruct (split_on sep s) as [|w ws] eqn:E; [done|].
    intros [= <- ->]. rewrite str_app_cons. f_equal. by apply IH.
Qed.

Lemma is_digit_value c :
  digit_value c = if is_digit c then Some (nat_of_ascii c - 48)%nat else None.
Proof. reflexivity. Qed.

Lemma is_digit_no_dollar c : is_digit c = true -> Ascii.eqb c "$" = false.
Proof.
  intros Hd. destruct (Ascii.eqb_spec c "$") as [->|]; [|done]. done.
Qed.

Lemma parse_ident_supported ident h :
  ident ∈ supported_idents -> startswith ident h = true ->
  parse_ident h = Some (ident, str_drop (String.length ident) h)
  /\ String.eqb ident IDENT_2X = false
  /\ identify h = true.
Proof.
  intros Hin Hs. pose proof (startswith_app _ _ Hs) as Hh.
  set (tail := str_drop (String.length ident) h) in *. clearbody tail. subst h.
  unfold supported_idents in Hin.
  repeat (apply elem_of_cons in Hin as [-> | Hin]); [by repeat split..|].
  by apply elem_of_nil in Hin.
Qed.

(** The parser on the fields after a supported ident. *)
Lemma from_string_fields ident h :
  ident ∈ supported_idents -> startswith ident h = true ->
  from_string h
  = match split_on "$" (str_drop (String.length ident) h) with
    | [rounds_str; data] =>
        match parse_cost rounds_str with
        | None => Raise MalformedHashError
        | Some rounds =>
            checksum ← norm_checksum (str_drop SALT_CHARS data);
            rounds ← norm_rounds rounds;
            salt ← norm_salt (str_take SALT_CHARS data);
            Return (mk_bcrypt_hash ident rounds salt checksum)
        end
    | _ => Raise MalformedHashError
    end.
Proof.
  intros Hin Hs. destruct (parse_ident_supported _ _ Hin Hs) as (Hp & Hx & _).
  unfold from_string. by rewrite Hp, Hx.
Qed.

Lemma str_length_take_drop n s :
  String.length s = (String.length (str_take n s) + String.length (str_drop n s))%nat.
Proof. rewrite <- (str_take_drop n s) at 1. apply str_length_app. Qed.

Lemma str_take_length n s :
  (n <= String.length s)%nat -> String.length (str_take n s) = n.
Proof.
  revert s. induction n as [|n IH]; intros [|c s]; cbn; try done; try lia.
  intros Hle. rewrite IH; lia.
Qed.

(** A string in the format parses, with a checksum. *)
Lemma from_string_format h :
  bcrypt_format h = true ->
  identify h = true
  /\ exists ident rounds salt chk,
       from_string h = Return (mk_bcrypt_hash ident rounds salt (Some chk)).
Proof.
  unfold bcrypt_format. intros (ident & Hin & [Hs Hf]%andb_prop)%existsb_exists.
  apply list_elem_of_In in Hin.
  split; [by apply (parse_ident_supported _ _ Hin Hs)|].
  rewrite (from_string_fields _ _ Hin Hs).
  destruct (str_drop (String.length ident) h) as [|a [|b [|d rest]]]; try done.
  cbn [bcrypt_fields_format] in Hf.
  apply andb_prop in Hf as [Hf Hchars]. apply andb_prop in Hf as [Hf Hlen].
  apply andb_prop in Hf as [Hf Hd]. apply andb_prop in Hf as [Hf Hmax].
  apply andb_prop in Hf as [Hf Hmin]. apply andb_prop in Hf as [Ha Hb].
  apply Ascii.eqb_eq in Hd as ->. apply Nat.eqb_eq in Hlen.
  change (String a (String b (String "$" rest)))
    with (String a (String b EmptyString) +:+ String "$" rest).
  rewrite split_on_app
    by (cbn [str_mem]; rewrite (Ascii.eqb_sym "$" a), (Ascii.eqb_sym "$" b),
          !is_digit_no_dollar by done; done).
  rewrite split_on_no_sep by by apply bcrypt64_no_dollar.
  cbn [parse_cost]. rewrite !is_digit_value, Ha, Hb. cbn [mbind option_bind].
  fold (cost_of_digits a b).
  pose proof (str_take_drop SALT_CHARS rest) as Hrest.
  rewrite <- Hrest, str_forallb_app in Hchars.
  apply andb_prop in Hchars as [Hsalt Hchk].
  assert (String.length (str_take SALT_CHARS rest) = SALT_CHARS) as Hls
    by (apply str_take_length; unfold SALT_CHARS; lia).
  assert (String.length (str_drop SALT_CHARS rest) = CHECKSUM_CHARS) as Hlc.
  { pose proof (str_length_take_drop SALT_CHARS rest) as Hl.
    rewrite Hls, Hlen in Hl. unfold SALT_CHARS, CHECKSUM_CHARS in *. lia. }
  unfold norm_checksum, norm_rounds, norm_salt.
  destruct (String.eqb_spec (str_drop SALT_CHARS rest) EmptyString) as [He|_].
  { by rewrite He in Hlc. }
  rewrite Hlc, Hls, !Nat.eqb_refl, Hsalt, Hchk. cbn [negb mbind result_bind].
  assert (((cost_of_digits a b <? MIN_ROUNDS) || (MAX_ROUNDS <? cost_of_digits a b))%nat
          = false) as ->.
  { apply Nat.leb_le in Hmin, Hmax. apply orb_false_intro; apply Nat.ltb_ge;
      unfold MIN_ROUNDS, MAX_ROUNDS; lia. }
  by eexists _, _, _, _.
Qed.

(** A string that parses with a checksum is in the format. *)
Lemma from_string_checksum_format h bh :
  from_string h = Return bh -> is_Some (bh_checksum bh) -> bcrypt_format h = true.
Proof.
  intros Hfs Hchk. unfold from_string in Hfs.
  destruct (parse_ident h) as [[ident tail]|] eqn:Hp; [|done].
  destruct (String.eqb_spec ident IDENT_2X) as [|Hx]; [done|].
  unfold parse_ident in Hp. apply fmap_Some in Hp as (i & Hfind & [= -> ->]).
  apply find_some in Hfind as [Hin Hs].
  assert (In i supported_idents) as Hsup.
  { unfold ident_values in Hin. cbn in Hin. cbn.
    destruct Hin as [<-|[<-|[<-|[<-|[<-|[]]]]]]; auto. done. }
  unfold bcrypt_format. apply existsb_exists. exists i. split; [done|].
  rewrite Hs. cbn [andb].
  destruct (split_on "$" (str_drop (String.length i) h))
    as [|rs [|data [|]]] eqn:Hsplit; try done.
  apply split_on_two in Hsplit. rewrite Hsplit.
  destruct rs as [|a [|b [|]]]; try done. cbn [parse_cost] in Hfs.
  rewrite !is_digit_value in Hfs.
  destruct (is_digit a) eqn:Ha; [|done]. destruct (is_digit b) eqn:Hb; [|done].
  cbn [mbind option_bind] in Hfs. fold (cost_of_digits a b) in Hfs.
  rewrite !str_app_cons, str_app_nil. cbn [bcrypt_fields_format].
  rewrite Ha, Hb, Ascii.eqb_refl. cbn [andb].
  unfold norm_checksum, norm_rounds, norm_salt in Hfs.
  destruct (String.eqb (str_drop SALT_CHARS data) EmptyString) eqn:He.
  { cbn [mbind result_bind] in Hfs.
    destruct (_ || _)%bool; [done|]. cbn [mbind result_bind] in Hfs.
    destruct (negb _); [done|]. destruct (negb _); [done|].
    cbn [mbind result_bind] in Hfs. injection Hfs as <-. by destruct Hchk. }
  destruct (Nat.eqb_spec (String.length (str_drop SALT_CHARS data)) CHECKSUM_CHARS)
    as [Hlc|]; [|done].
  destruct (str_forallb in_bcrypt64 (str_drop SALT_CHARS data)) eqn:Hcc; [|done].
  cbn [negb mbind result_bind] in Hfs.
  destruct (Nat.ltb_spec (cost_of_digits a b) MIN_ROUNDS); [done|].
  destruct (Nat.ltb_spec MAX_ROUNDS (cost_of_digits a b)); [done|].
  cbn [orb mbind result_bind] in Hfs.
  destruct (Nat.eqb_spec (String.length (str_take SALT_CHARS data)) SALT_CHARS)
    as [Hls|]; [|done].
  destruct (str_forallb in_bcrypt64 (str_take SALT_CHARS data)) eqn:Hsc; [|done].
  rewrite (str_length_take_drop SALT_CHARS data), Hls, Hlc.
  rewrite <- (str_take_drop SALT_CHARS data), str_forallb_app, Hsc, Hcc.
  unfold MIN_ROUNDS, MAX_ROUNDS in *.
  rewrite (proj2 (Nat.leb_le 4 _)), (proj2 (Nat.leb_le _ 31)) by lia. done.
Qed.

Lemma from_string_raises_ValueError h e :
  from_string h = Raise e -> e = MalformedHashError.
Proof.
  unfold from_string. destruct (parse_ident h) as [[ident tail]|]; [|congruence].
  destruct (String.eqb ident IDENT_2X); [congruence|].
  destruct (split_on "$" tail) as [|rs [|data [|]]]; try congruence.
  destruct (parse_cost rs); [|congruence].
  unfold norm_checksum, norm_rounds, norm_salt.
  repeat (match goal with
          | |- context [if ?b then _ else _] => destruct b
          end; cbn [mbind result_bind]; try congruence).
Qed.

Section PasslibProperties.
Context `{BcryptBackend}.

(** A secret the hasher accepts: within the size limit, no NUL byte. *)
Definition acceptable_secret (secret : string) : Prop :=
  (String.length secret <= MAX_PASSWORD_SIZE)%nat /\ str_mem zero secret = false.

Lemma validate_secret_ok secret :
  (String.length secret <= MAX_PASSWORD_SIZE)%nat -> validate_secret secret = Return tt.
Proof.
  intros Hle. unfold validate_secret.
  by destruct (Nat.ltb_spec MAX_PASSWORD_SIZE (String.length secret)); [lia|].
Qed.

Lemma calc_checksum_ok ident rounds salt secret :
  acceptable_secret secret ->
  calc_checksum ident rounds salt secret
  = Return (bcrypt_digest ident rounds salt secret).
Proof.
  intros [Hle Hnul]. unfold calc_checksum.
  rewrite (validate_secret_ok _ Hle). cbn [mbind result_bind]. by rewrite Hnul.
Qed.

(** C7 (as amended): for every password that the hasher accepts (at most
    [MAX_PASSWORD_SIZE] bytes, no NUL byte) and every draw of the salt,
    [generate_password_hash] returns a hash and [verify_password] of the
    password against that hash returns true. *)
Theorem verify_generated_hash (rng : N) (p : string) :
  acceptable_secret p ->
  exists h, generate_password_hash rng p = Return h
            /\ verify_password p h = Return true.
Proof.
  intros Hp. pose proof Hp as [Hle Hnul].
  set (salt := repair_salt (getrandstr rng SALT_CHARS)).
  set (chk := bcrypt_digest IDENT_2B DEFAULT_ROUNDS salt p).
  set (bh := mk_bcrypt_hash IDENT_2B DEFAULT_ROUNDS salt (Some chk)).
  exists (to_string bh). split.
  - unfold generate_password_hash, PWD_hash.
    rewrite (validate_secret_ok _ Hle). cbn [mbind result_bind].
    by rewrite (calc_checksum_ok _ _ _ _ Hp).
  - unfold verify_password, PWD_verify.
    unfold bh at 1. rewrite to_string_default, identify_2b.
    unfold bcrypt_verify. rewrite (validate_secret_ok _ Hle).
    cbn [mbind result_bind].
    unfold bh, salt. rewrite from_string_to_string by apply bcrypt_digest_ok.
    cbn [mbind result_bind bh_checksum bh_ident bh_rounds bh_salt].
    rewrite (calc_checksum_ok _ _ _ _ Hp). cbn [mbind result_bind].
    by rewrite String.eqb_refl.
Qed.

(** [verify_password] against a hash in the format returns a boolean for
    a secret the hasher accepts, and raises the error of the secret for one
    it refuses. *)
Lemma verify_password_format p h :
  bcrypt_format h = true ->
  (acceptable_secret p -> exists b, verify_password p h = Return b)
  /\ (~ acceptable_secret p ->
      verify_password p h
      = Raise (if (MAX_PASSWORD_SIZE <? String.length p)%nat
               then PasswordSizeError else PasswordValueError)).
Proof.
  intros (Hid & ident & rounds & salt & chk & Hfs)%from_string_format.
  unfold verify_password, PWD_verify, bcrypt_verify. rewrite Hid. split.
  - intros Hp. rewrite (validate_secret_ok _ (proj1 Hp)). cbn [mbind result_bind].
    rewrite Hfs. cbn [mbind result_bind bh_checksum bh_ident bh_rounds bh_salt].
    rewrite (calc_checksum_ok _ _ _ _ Hp). by eexists.
  - intros Hp. unfold validate_secret, calc_checksum, validate_secret.
    destruct (Nat.ltb_spec MAX_PASSWORD_SIZE (String.length p)) as [|Hle]; [done|].
    cbn [mbind result_bind]. rewrite Hfs.
    cbn [mbind result_bind bh_checksum bh_ident bh_rounds bh_salt].
    destruct (str_mem zero p) eqn:Hz; [done|]. by destruct Hp.
Qed.

(** [verify_password] against a string that is not in the format raises a
    [ValueError], whatever the password. *)
Lemma verify_password_not_format p h :
  bcrypt_format h = false ->
  exists e, verify_password p h = Raise e /\ is_ValueError e = true.
Proof.
  intros Hf. unfold verify_password, PWD_verify, bcrypt_verify.
  destruct (identify h); [|by eexists].
  destruct (validate_secret p) as [[]|e] eqn:Hv.
  2: { unfold validate_secret in Hv. destruct (_ <? _)%nat; [|done].
       injection Hv as <-. by eexists. }
  cbn [mbind result_bind].
  destruct (from_string h) as [bh|e] eqn:Hfs.
  - cbn [mbind result_bind]. destruct (bh_checksum bh) as [chk|] eqn:Hc;
      [|by eexists].
    rewrite (from_string_checksum_format h bh Hfs) in Hf; [done|].
    rewrite Hc. by eexists.
  - apply from_string_raises_ValueError in Hfs as ->. by eexists.
Qed.

(** C8 (as amended): for every plain password and every string given as
    the hash, [verify_password] raises when the string is not a
    well-formed bcrypt hash: [UnknownHashError] when it starts with no
    bcrypt ident, and in every case a [ValueError]; it returns a boolean
    when the string is a well-formed bcrypt hash and the password is one
    the hasher accepts.  Well-formed is [bcrypt_format]: a supported ident,
    a two-digit cost from 04 to 31, a dollar sign and 53 characters of the
    bcrypt alphabet. *)
Theorem verify_password_malformed_raises (p h : string) :
  (identify h = false -> verify_password p h = Raise UnknownHashError)
  /\ (bcrypt_format h = false ->
      exists e, verify_password p h = Raise e /\ is_ValueError e = true)
  /\ (bcrypt_format h = true -> acceptable_secret p ->
      exists b, verify_password p h = Return b).
Proof.
  split; [|split].
  - unfold verify_password, PWD_verify. by intros ->.
  - apply verify_password_not_format.
  - intros Hf. by apply verify_password_format.
Qed.

End PasslibProperties.

(** ** PyJWT *)

Lemma dot_app b : dot +:+ b = String "." b.
Proof. reflexivity. Qed.

(** A token of three segments, the first and the last without a dot, splits
    into them whatever the middle one holds. *)
Lemma split_token h p s :
  str_mem "." h = false -> str_mem "." s = false ->
  rsplit_last "." ((h +:+ dot +:+ p) +:+ dot +:+ s) = Some (h +:+ dot +:+ p, s)
  /\ split_first "." (h +:+ dot +:+ p) = Some (h, p).
Proof.
  intros Hh Hs. rewrite !dot_app. split.
  - by apply rsplit_last_app.
  - by apply split_first_app.
Qed.

(** The claims [jwt.encode] signs for [to_encode = data | {"exp": expire}]. *)
Definition issued_claims (data : gmap string string) (expire : Z)
  : gmap string json_value :=
  <["exp" := JInt (timegm expire)]> (JStr <$> data).

Lemma json_payload_of_to_encode (data : gmap string string) (expire : Z) :
  json_payload_of (<["exp" := PyDatetime expire]> (PyStr <$> data))
  = Return (issued_claims data expire).
Proof.
  unfold json_payload_of. rewrite bool_decide_eq_true_2.
  - f_equal. apply map_eq. intros k. unfold issued_claims.
    rewrite map_lookup_imap. destruct (decide (k = "exp")) as [->|Hk].
    + by rewrite !lookup_insert_eq.
    + rewrite !lookup_insert_ne, !lookup_fmap by done.
      by destruct (data !! k).
  - apply map_Forall_insert_2; [by eexists|].
    apply map_Forall_fmap. intros k v _. by eexists.
Qed.

Lemma issued_claims_plain data expire :
  map_Forall (fun _ v => is_plain v = true) (issued_claims data expire).
Proof.
  apply map_Forall_insert_2; [done|]. apply map_Forall_fmap. by intros k v _.
Qed.

Lemma jws_header_plain alg :
  map_Forall (fun _ v => is_plain v = true) (jws_header alg).
Proof.
  apply map_Forall_insert_2; [done|]. by apply map_Forall_singleton.
Qed.

Lemma issued_claims_lookup_ne data expire k :
  k <> "exp" -> issued_claims data expire !! k = JStr <$> (data !! k).
Proof.
  intros Hk. unfold issued_claims. by rewrite lookup_insert_ne, lookup_fmap.
Qed.

Lemma issued_claims_lookup_exp data expire :
  issued_claims data expire !! "exp" = Some (JInt (timegm expire)).
Proof. apply lookup_insert_eq. Qed.

Section JwtProperties.
Context `{JwtBackend}.

(** The token [jwt.encode] builds from signed claims. *)
Definition signed_token (sign : string -> string -> string)
    (key alg : string) (claims : gmap string json_value) : string :=
  let signing_input := header_segment alg +:+ dot +:+ payload_segment claims in
  signing_input +:+ dot +:+ base64url_encode (sign key signing_input).

Lemma jwt_encode_issued data expire key alg sign :
  get_algorithm_by_name alg = Some sign ->
  jwt_encode (<["exp" := PyDatetime expire]> (PyStr <$> data)) key alg
  = Return (signed_token sign key alg (issued_claims data expire)).
Proof.
  intros Hs. unfold jwt_encode. rewrite json_payload_of_to_encode.
  cbn [mbind result_bind]. by rewrite Hs.
Qed.

(** Loading a token whose header segment is the one [jwt.encode] writes
    and whose last segment encodes [sig]: only the payload segment, which
    is arbitrary here, can fail to decode. *)
Lemma jws_load_segments alg p sig :
  jws_load ((header_segment alg +:+ dot +:+ p) +:+ dot +:+ base64url_encode sig)
  = match base64url_decode p with
    | None => Raise (Jwt DecodeError)
    | Some payload =>
        Return (payload, header_segment alg +:+ dot +:+ p, jws_header alg, sig)
    end.
Proof.
  unfold jws_load.
  destruct (split_token (header_segment alg) p (base64url_encode sig))
    as [-> ->]; try apply base64url_encode_no_dot.
  unfold header_segment at 1.
  rewrite base64url_decode_encode, json_loads_dumps by apply jws_header_plain.
  by rewrite base64url_decode_encode.
Qed.

Lemma verify_signature_header alg sign si sig key :
  get_algorithm_by_name alg = Some sign ->
  verify_signature si (jws_header alg) sig key [alg]
  = if String.eqb sig (sign key si) then Return tt
    else Raise (Jwt InvalidSignatureError).
Proof.
  intros Hs. unfold verify_signature, jws_header.
  rewrite lookup_insert_eq.
  destruct (String.eqb alg EmptyString) eqn:E.
  { apply String.eqb_eq in E as ->.
    by rewrite get_algorithm_by_name_empty in Hs. }
  rewrite bool_decide_eq_true_2 by (by apply list_elem_of_singleton).
  cbn [negb orb]. by rewrite Hs.
Qed.

Lemma jws_header_no_b64 alg : jws_header alg !! "b64" = None.
Proof. done. Qed.

(** Decoding a token with the issued header and signature segments and any
    payload segment: a payload that does not decode, or that the
    signature does not cover, is refused before any claim is read. *)
Lemma jwt_decode_segments alg sign key p sig now :
  get_algorithm_by_name alg = Some sign ->
  jwt_decode ((header_segment alg +:+ dot +:+ p) +:+ dot +:+ base64url_encode sig)
    key [alg] now
  = match base64url_decode p with
    | None => Raise (Jwt DecodeError)
    | Some payload_data =>
        if String.eqb sig (sign key (header_segment alg +:+ dot +:+ p))
        then match json_loads payload_data with
             | None => Raise (Jwt DecodeError)
             | Some payload => _ ← validate_claims payload now; Return payload
             end
        else Raise (Jwt InvalidSignatureError)
    end.
Proof.
  intros Hs. unfold jwt_decode. rewrite jws_load_segments.
  destruct (base64url_decode p) as [payload_data|]; [|done].
  cbn [mbind result_bind]. rewrite jws_header_no_b64.
  rewrite (verify_signature_header _ _ _ _ _ Hs).
  by destruct (String.eqb _ _).
Qed.

(** A token as issued decodes to its claims, subject to their validation. *)
Lemma jwt_decode_signed_token alg sign key claims now :
  get_algorithm_by_name alg = Some sign ->
  map_Forall (fun _ v => is_plain v = true) claims ->
  jwt_decode (signed_token sign key alg claims) key [alg] now
  = (_ ← validate_claims claims now; Return claims).
Proof.
  intros Hs Hplain. unfold signed_token. cbv zeta.
  rewrite (jwt_decode_segments _ _ _ _ _ _ Hs).
  unfold payload_segment at 1.
  rewrite base64url_decode_encode, String.eqb_refl.
  by rewrite json_loads_dumps.
Qed.

(** The claims of an issued token with no [iat], [nbf] or [aud] entry are
    valid exactly while the clock is before [exp] seconds. *)
Lemma validate_issued_claims data expire now :
  data !! "iat" = None -> data !! "nbf" = None -> data !! "aud" = None ->
  validate_claims (issued_claims data expire) now
  = if timegm expire * MICROSECONDS <=? now
    then Raise (Jwt ExpiredSignatureError) else Return tt.
Proof.
  intros Hiat Hnbf Haud.
  unfold validate_claims, validate_iat, validate_nbf, validate_exp, validate_aud.
  rewrite (issued_claims_lookup_ne _ _ "iat"), (issued_claims_lookup_ne _ _ "nbf"),
    (issued_claims_lookup_ne _ _ "aud"), issued_claims_lookup_exp by done.
  rewrite Hiat, Hnbf, Haud. cbn [fmap option_fmap option_map mbind result_bind py_int].
  by destruct (_ <=? _).
Qed.

(** Claims that validate at one time validate at every later time until
    they expire: the checks on [iat] and [nbf] only get easier. *)
Lemma validate_iat_later payload t0 t :
  validate_iat payload t0 = Return tt -> t0 <= t ->
  validate_iat payload t = Return tt.
Proof.
  unfold validate_iat. intros Hv Hle.
  destruct (payload !! "iat") as [v|]; [|done].
  destruct (py_int v) as [iat| |]; try done.
  destruct (Z.ltb_spec t0 (iat * MICROSECONDS)); [done|].
  by destruct (Z.ltb_spec t (iat * MICROSECONDS)); [lia|].
Qed.

Lemma validate_nbf_later payload t0 t :
  validate_nbf payload t0 = Return tt -> t0 <= t ->
  validate_nbf payload t = Return tt.
Proof.
  unfold validate_nbf. intros Hv Hle.
  destruct (payload !! "nbf") as [v|]; [|done].
  destruct (py_int v) as [nbf| |]; try done.
  destruct (Z.ltb_spec t0 (nbf * MICROSECONDS)); [done|].
  by destruct (Z.ltb_spec t (nbf * MICROSECONDS)); [lia|].
Qed.

Lemma validate_exp_later payload t0 t :
  validate_exp payload t0 = Return tt ->
  validate_exp payload t = Return tt
  \/ validate_exp payload t = Raise (Jwt ExpiredSignatureError).
Proof.
  unfold validate_exp. intros Hv.
  destruct (payload !! "exp") as [v|]; [|by left].
  destruct (py_int v) as [exp| |]; try done.
  destruct (exp * MICROSECONDS <=? t); [by right | by left].
Qed.

Lemma validate_claims_later payload t0 t :
  validate_claims payload t0 = Return tt -> t0 <= t ->
  validate_claims payload t = Return tt
  \/ validate_claims payload t = Raise (Jwt ExpiredSignatureError).
Proof.
  unfold validate_claims. intros Hv Hle.
  destruct (validate_iat payload t0) as [[]|] eqn:Hiat; [|done].
  destruct (validate_nbf payload t0) as [[]|] eqn:Hnbf; [|done].
  destruct (validate_exp payload t0) as [[]|] eqn:Hexp; [|done].
  cbn [mbind result_bind] in Hv.
  rewrite (validate_iat_later _ _ _ Hiat Hle), (validate_nbf_later _ _ _ Hnbf Hle).
  cbn [mbind result_bind].
  destruct (validate_exp_later _ _ t Hexp) as [-> | ->]; [by left | by right].
Qed.

(** A token that [jwt.decode] accepts at one time is, at every later time,
    accepted with the same claims or refused as expired. *)
Lemma jwt_decode_later tok key algs t0 t payload :
  jwt_decode tok key algs t0 = Return payload -> t0 <= t ->
  jwt_decode tok key algs t = Return payload
  \/ jwt_decode tok key algs t = Raise (Jwt ExpiredSignatureError).
Proof.
  unfold jwt_decode. intros Hd Hle. destruct algs as [|alg algs]; [done|].
  destruct (jws_load tok) as [[[[pd si] hd] sg]|]; [|done].
  cbn [mbind result_bind] in *.
  destruct (hd !! "b64") as [[|[]| | |]|]; try done;
    (destruct (verify_signature _ _ _ _ _); [|done];
     cbn [mbind result_bind] in *;
     destruct (json_loads pd) as [pl|]; [|done];
     destruct (validate_claims pl t0) as [[]|] eqn:Hv; [|done];
     cbn [mbind result_bind] in Hd; injection Hd as ->;
     destruct (validate_claims_later _ _ _ Hv Hle) as [-> | ->];
     [by left | by right]).
Qed.

End JwtProperties.

(** ** Prisma *)

Lemma find_first_row db e b u :
  User_find_first db e b = Some u ->
  exists r, List.find (fun r => String.eqb (row_email r) e) (users db) = Some r
            /\ u = to_record db b r /\ row_email r = e.
Proof.
  unfold User_find_first. intros (r & Hr & ->)%fmap_Some. exists r.
  split; [done|]. split; [done|].
  apply find_some in Hr as [_ Hr]. by apply String.eqb_eq.
Qed.

Lemma find_first_include db e u :
  User_find_first db e false = Some u ->
  User_find_first db e true
  = Some (mkUser (id u) (email u) (password u) (Some (blacklist_of db (id u)))).
Proof.
  intros (r & Hr & -> & _)%find_first_row. unfold User_find_first. by rewrite Hr.
Qed.

Lemma blacklist_of_app db uid t' uid' :
  blacklist_of (mkDatabase (users db) (blacklist db ++ [mkJwtBlacklist t' uid'])) uid
  = (blacklist_of db uid ++ (if uid' =? uid then [mkJwtBlacklist t' uid'] else []))%list.
Proof.
  unfold blacklist_of. cbn [blacklist]. rewrite List.filter_app. cbn [List.filter user_id].
  by destruct (uid' =? uid).
Qed.

Lemma any_app {A} (l1 l2 : list A) : any (l1 ++ l2)%list = any l1 || any l2.
Proof. by destruct l1. Qed.

Lemma any_filter_app {A} (f : A -> bool) l1 l2 :
  any (List.filter f (l1 ++ l2)%list)
  = any (List.filter f l1) || any (List.filter f l2).
Proof. rewrite List.filter_app. by destruct (List.filter f l1). Qed.

(** What a successful [JWTBlacklist.create] does to the database. *)
Lemma create_success `{Imports} db t uid row db' :
  JWTBlacklist_create db t uid = (Return row, db') ->
  row = mkJwtBlacklist t uid
  /\ db' = mkDatabase (users db) (blacklist db ++ [row])
  /\ existsb (fun r => row_id r =? uid) (users db) = true
  /\ (token_unique = true ->
      existsb (fun e => String.eqb (token e) t) (blacklist db) = false).
Proof.
  unfold JWTBlacklist_create.
  destruct (existsb (fun r => row_id r =? uid) (users db)); cbn [negb]; [|done].
  destruct token_unique; cbn [andb].
  - destruct (existsb _ (blacklist db)); [done|]. by intros [= <- <-].
  - by intros [= <- <-].
Qed.

(** ** security.py *)

Lemma http_exceptions_distinct : CredentialException <> TokenExpiredException.
Proof. discriminate. Qed.

Section SecurityProperties.
Context `{BcryptBackend} `{JwtBackend} `{Imports}.

(** [expire] of [create_access_token] called at [now]. *)
Definition expires_at (now : Z) : Z :=
  now + timedelta_minutes ACCESS_TOKEN_EXPIRE_MINUTES.

(** The first instant, in microseconds, at which [jwt.decode] refuses the
    token issued at [now]: its [exp] claim, in whole seconds. *)
Definition expiry_instant (now : Z) : Z :=
  timegm (expires_at now) * MICROSECONDS.

(** The token [create_access_token] returns when [sign] is the registered
    algorithm. *)
Definition issued_token (sign : string -> string -> string) (now : Z)
    (data : gmap string string) : string :=
  signed_token sign SECRET_KEY ALGORITHM (issued_claims data (expires_at now)).

Lemma create_access_token_issued now data sign :
  get_algorithm_by_name ALGORITHM = Some sign ->
  create_access_token now data = Return (issued_token sign now data).
Proof. intros Hs. by apply jwt_encode_issued. Qed.

Lemma expiry_instant_bounds now :
  expires_at now - MICROSECONDS < expiry_instant now <= expires_at now.
Proof.
  unfold expiry_instant, timegm, MICROSECONDS.
  pose proof (Z.mul_div_le (expires_at now) 1000000).
  pose proof (Z.mul_succ_div_gt (expires_at now) 1000000). lia.
Qed.

(** [jwt.decode] of an issued token carrying no [iat], [nbf] or [aud]. *)
Lemma jwt_decode_issued sign t0 data t :
  get_algorithm_by_name ALGORITHM = Some sign ->
  data !! "iat" = None -> data !! "nbf" = None -> data !! "aud" = None ->
  jwt_decode (issued_token sign t0 data) SECRET_KEY [ALGORITHM] t
  = if expiry_instant t0 <=? t then Raise (Jwt ExpiredSignatureError)
    else Return (issued_claims data (expires_at t0)).
Proof.
  intros Hs Hiat Hnbf Haud. unfold issued_token.
  rewrite (jwt_decode_signed_token _ _ _ _ _ Hs) by apply issued_claims_plain.
  rewrite validate_issued_claims by done. fold (expiry_instant t0).
  by destruct (_ <=? _).
Qed.

(** The [try] block of [get_current_user] on such a token. *)
Lemma decode_token_data_issued sign t0 data t :
  get_algorithm_by_name ALGORITHM = Some sign ->
  data !! "iat" = None -> data !! "nbf" = None -> data !! "aud" = None ->
  decode_token_data t (issued_token sign t0 data)
  = if expiry_instant t0 <=? t then Raise (HTTP TokenExpiredException)
    else match data !! "sub" with
         | Some email_ => Return email_
         | None => Raise (HTTP CredentialException)
         end.
Proof.
  intros Hs Hiat Hnbf Haud. unfold decode_token_data.
  rewrite (jwt_decode_issued _ _ _ _ Hs) by done.
  destruct (_ <=? _); [done|]. cbn [mbind result_bind].
  rewrite issued_claims_lookup_ne by done.
  by destruct (data !! "sub").
Qed.

Lemma get_current_user_raise db t tok e :
  decode_token_data t tok = Raise e -> get_current_user db t tok = Raise e.
Proof. intros Hd. unfold get_current_user. by rewrite Hd. Qed.

(** C2 (as amended): a token issued by [create_access_token] at [t0] with
    lifetime L minutes (from data with no [iat], [nbf] or [aud] entry, as
    [login_for_access_token] passes) expires at the instant E = [t0] + L
    minutes rounded down to a whole second.  At every check time strictly
    before E the verification in [get_current_user] does not raise the
    expired-token error ([jwt.decode] returns the claims); at every check
    time at or after E, hence at or after [t0] + L, [get_current_user]
    fails with [TokenExpiredException]. *)
Theorem token_expiry_window (db : Database) (t0 t : Z)
    (data : gmap string string) (tok : string) :
  data !! "iat" = None -> data !! "nbf" = None -> data !! "aud" = None ->
  create_access_token t0 data = Return tok ->
  expires_at t0 - MICROSECONDS < expiry_instant t0 <= expires_at t0
  /\ (t < expiry_instant t0 ->
      jwt_decode tok SECRET_KEY [ALGORITHM] t
      = Return (issued_claims data (expires_at t0))
      /\ decode_token_data t tok <> Raise (HTTP TokenExpiredException))
  /\ (expiry_instant t0 <= t ->
      decode_token_data t tok = Raise (HTTP TokenExpiredException)
      /\ get_current_user db t tok = Raise (HTTP TokenExpiredException)).
Proof.
  intros Hiat Hnbf Haud Htok. split; [apply expiry_instant_bounds|].
  destruct (get_algorithm_by_name ALGORITHM) as [sign|] eqn:Hs.
  2: { unfold create_access_token, jwt_encode in Htok.
       rewrite json_payload_of_to_encode in Htok.
       cbn [mbind result_bind] in Htok. by rewrite Hs in Htok. }
  rewrite (create_access_token_issued _ _ _ Hs) in Htok. injection Htok as <-.
  rewrite (jwt_decode_issued _ _ _ _ Hs), (decode_token_data_issued _ _ _ _ Hs)
    by done.
  split; intros Ht.
  - destruct (Z.leb_spec (expiry_instant t0) t); [lia|]. split; [done|].
    by destruct (data !! "sub").
  - assert (decode_token_data t (issued_token sign t0 data)
            = Raise (HTTP TokenExpiredException)) as Hd.
    { rewrite (decode_token_data_issued _ _ _ _ Hs) by done.
      by destruct (Z.leb_spec (expiry_instant t0) t); [|lia]. }
    rewrite (get_current_user_raise _ _ _ _ Hd).
    by destruct (Z.leb_spec (expiry_instant t0) t); [|lia].
Qed.


(** C5: for a stored user found by the email whose stored hash verifies
    the password, [login_for_access_token] returns a non-empty token with
    token type "bearer"; the token's subject claim is the user's email;
    and [get_current_user] on that token, before its expiry and while the
    user's blacklist does not hold it, returns that user.  (The algorithm
    of the settings is one that PyJWT has registered.) *)
Theorem login_then_resolve (db : Database) (t0 : Z) (email_ password_ : string)
    (user : UserRecord) :
  User_find_first db email_ false = Some user ->
  verify_password password_ (password user) = Return true ->
  is_Some (get_algorithm_by_name ALGORITHM) ->
  exists tok,
    login_for_access_token db t0 email_ password_
    = Return (<["token_type" := "bearer"]> {["access_token" := tok]})
    /\ tok <> EmptyString
    /\ forall t, t < expiry_instant t0 ->
         (exists claims, jwt_decode tok SECRET_KEY [ALGORITHM] t = Return claims
                         /\ claims !! "sub" = Some (JStr (email user)))
         /\ (any (List.filter (fun x => String.eqb (token x) tok)
                    (blacklist_of db (id user))) = false ->
             get_current_user db t tok
             = Return (mkUser (id user) (email user) (password user)
                         (Some (blacklist_of db (id user))))).
Proof.
  intros Hfind Hpw [sign Hs].
  set (data := {["sub" := email user]} : gmap string string).
  exists (issued_token sign t0 data). split; [|split].
  - unfold login_for_access_token, authenticate_user.
    rewrite Hfind. cbn [mbind result_bind]. rewrite Hpw.
    cbn [mbind result_bind negb].
    by rewrite (create_access_token_issued _ _ _ Hs).
  - unfold issued_token, signed_token. cbv zeta. rewrite !dot_app.
    intros Heq. apply (f_equal String.length) in Heq.
    rewrite !str_length_app in Heq. cbn [String.length] in Heq. lia.
  - intros t Ht.
    assert ((expiry_instant t0 <=? t) = false) as Hleb by (apply Z.leb_gt; lia).
    split.
    + exists (issued_claims data (expires_at t0)).
      rewrite (jwt_decode_issued _ _ _ _ Hs), Hleb by done.
      split; [done|]. by rewrite issued_claims_lookup_ne.
    + intros Hbl. unfold get_current_user.
      rewrite (decode_token_data_issued _ _ _ _ Hs), Hleb by done.
      unfold data in *. rewrite lookup_singleton_eq. cbn [mbind result_bind].
      pose proof Hfind as (r & _ & -> & He)%find_first_row.
      cbn [email to_record] in *. subst email_.
      rewrite (find_first_include _ _ _ Hfind). cbn [jwt_blacklist id] in *.
      by rewrite Hbl.
Qed.

(** The subject a token decodes to does not change with time: at a later
    time the token decodes to the same subject or is refused as expired. *)
Lemma decode_token_data_later t0 t tok email_ :
  decode_token_data t0 tok = Return email_ -> t0 <= t ->
  decode_token_data t tok = Return email_
  \/ decode_token_data t tok = Raise (HTTP TokenExpiredException).
Proof.
  unfold decode_token_data. intros Hd Hle.
  destruct (jwt_decode tok SECRET_KEY [ALGORITHM] t0) as [payload|e] eqn:Hj.
  - destruct (jwt_decode_later _ _ _ _ _ _ Hj Hle) as [-> | ->];
      [by left | by right].
  - cbn [mbind result_bind try_except_jwt] in Hd. destruct e as [|je| | | | | | | | |]; try done.
    destruct (is_ExpiredSignatureError je); [done|].
    by destruct (is_InvalidTokenError je).
Qed.

Lemma get_current_user_decodes db t tok user :
  get_current_user db t tok = Return user ->
  exists email_, decode_token_data t tok = Return email_
                 /\ User_find_first db email_ true = Some user.
Proof.
  unfold get_current_user.
  destruct (decode_token_data t tok) as [email_|e]; [|done].
  cbn [mbind result_bind]. exists email_. split; [done|].
  destruct (User_find_first db email_ true) as [u|]; [|done].
  destruct (jwt_blacklist u); [|done]. destruct (any _); [done|]. congruence.
Qed.

(** After a revocation for the user a token's subject names, the token is
    refused as expired at every time at which it decodes. *)
Lemma revoked_subject_is_expired db db' tok user owner t email_ b :
  add_access_token_blacklist db tok user = (Return tt, db') ->
  decode_token_data t tok = Return email_ ->
  User_find_first db email_ b = Some owner ->
  id owner = id user ->
  get_current_user db' t tok = Raise (HTTP TokenExpiredException).
Proof.
  intros Hadd Hdec Hfind Hid. unfold add_access_token_blacklist in Hadd.
  destruct (JWTBlacklist_create db tok (id user)) as [[row|e] db1] eqn:Hc;
    [|done].
  injection Hadd as <-. apply create_success in Hc as (-> & -> & _ & _).
  unfold get_current_user. rewrite Hdec. cbn [mbind result_bind].
  pose proof Hfind as (r & Hr & -> & _)%find_first_row.
  unfold User_find_first. cbn [users]. rewrite Hr.
  cbn [fmap option_fmap option_map to_record jwt_blacklist id] in *.
  rewrite blacklist_of_app, any_filter_app, Hid, Z.eqb_refl.
  cbn [List.filter token]. rewrite String.eqb_refl. cbn [any].
  by rewrite orb_true_r.
Qed.

(** C1: after [add_access_token_blacklist(token, user)] succeeds for a
    token of that user, every later [get_current_user(token)] fails with
    [TokenExpiredException], the error of natural expiry, also while the
    expiry of the token has not passed.  A token of the user is one that
    [get_current_user] resolved to the user (first part: at every time
    from the time of that resolution on) or one that
    [create_access_token] issued with the user's email as subject, as
    [login_for_access_token] does (second part: at every time; from its
    expiry on the unrevoked token raises the same error). *)
Theorem revoked_token_is_expired (db db' : Database) (tok : string)
    (user : UserRecord) :
  add_access_token_blacklist db tok user = (Return tt, db') ->
  (forall t0 t resolved,
     get_current_user db t0 tok = Return resolved -> id resolved = id user ->
     t0 <= t ->
     get_current_user db' t tok = Raise (HTTP TokenExpiredException))
  /\ (forall t0 owner,
        User_find_first db (email owner) false = Some owner ->
        id owner = id user ->
        create_access_token t0 {["sub" := email owner]} = Return tok ->
        (forall t, get_current_user db' t tok
                   = Raise (HTTP TokenExpiredException))
        /\ (forall t, expiry_instant t0 <= t ->
              get_current_user db t tok = Raise (HTTP TokenExpiredException))).
Proof.
  intros Hadd. split.
  - intros t0 t resolved Hres Hid Hle.
    apply get_current_user_decodes in Hres as (email_ & Hdec & Hfind).
    destruct (decode_token_data_later _ _ _ _ Hdec Hle) as [Hd | Hd].
    + by eapply revoked_subject_is_expired.
    + by apply get_current_user_raise.
  - intros t0 owner Hfind Hid Htok.
    destruct (get_algorithm_by_name ALGORITHM) as [sign|] eqn:Hs.
    2: { unfold create_access_token, jwt_encode in Htok.
         rewrite json_payload_of_to_encode in Htok.
         cbn [mbind result_bind] in Htok. by rewrite Hs in Htok. }
    rewrite (create_access_token_issued _ _ _ Hs) in Htok. injection Htok as <-.
    assert (forall t, decode_token_data t (issued_token sign t0 {["sub" := email owner]})
                      = if expiry_instant t0 <=? t
                        then Raise (HTTP TokenExpiredException)
                        else Return (email owner)) as Hdec.
    { intros t. rewrite (decode_token_data_issued _ _ _ _ Hs) by done.
      by rewrite lookup_singleton_eq. }
    split; intros t.
    + destruct (expiry_instant t0 <=? t) eqn:Hleb.
      * apply get_current_user_raise. by rewrite Hdec, Hleb.
      * eapply revoked_subject_is_expired; [done| |done..].
        by rewrite Hdec, Hleb.
    + intros Hle. apply get_current_user_raise. rewrite Hdec.
      by destruct (Z.leb_spec (expiry_instant t0) t); [|lia].
Qed.

(** C10: a token that [jwt.decode] accepts (signature verified, expiry not
    passed) and whose payload has no "sub" claim makes [get_current_user]
    fail with [CredentialException], which is not the expired-token
    error. *)
Theorem missing_subject_is_credential_error (db : Database) (t : Z)
    (tok : string) (payload : gmap string json_value) :
  jwt_decode tok SECRET_KEY [ALGORITHM] t = Return payload ->
  payload !! "sub" = None ->
  get_current_user db t tok = Raise (HTTP CredentialException)
  /\ HTTP CredentialException <> HTTP TokenExpiredException.
Proof.
  intros Hdec Hsub. split; [|done].
  apply get_current_user_raise. unfold decode_token_data.
  rewrite Hdec. cbn [mbind result_bind]. by rewrite Hsub.
Qed.

(** A token with the issued header and signature segments and another
    payload segment never gets past the signature check, unless the keyed
    hash of the two signing inputs collides. *)
Lemma jwt_decode_other_payload sign claims p' t :
  get_algorithm_by_name ALGORITHM = Some sign ->
  let h := header_segment ALGORITHM in
  let p := payload_segment claims in
  sign SECRET_KEY (h +:+ dot +:+ p') <> sign SECRET_KEY (h +:+ dot +:+ p) ->
  jwt_decode
    ((h +:+ dot +:+ p') +:+ dot
       +:+ base64url_encode (sign SECRET_KEY (h +:+ dot +:+ p)))
    SECRET_KEY [ALGORITHM] t = Raise (Jwt DecodeError)
  \/ jwt_decode
       ((h +:+ dot +:+ p') +:+ dot
          +:+ base64url_encode (sign SECRET_KEY (h +:+ dot +:+ p)))
       SECRET_KEY [ALGORITHM] t = Raise (Jwt InvalidSignatureError).
Proof.
  intros Hs h p Hne. rewrite (jwt_decode_segments _ _ _ _ _ _ Hs).
  destruct (base64url_decode p'); [|by left]. right.
  fold h. by rewrite (proj2 (String.eqb_neq _ _)) by (intros Heq; by apply Hne).
Qed.

(** C3: for every issued token and every change of one byte of its payload
    segment, [get_current_user] on the changed token fails with
    [CredentialException], the error of an invalid token, provided the
    keyed hash of the changed signing input is not that of the original
    one; this error and [TokenExpiredException] are distinct values. *)
Theorem tampered_payload_is_invalid (db : Database) (t0 t : Z)
    (data : gmap string string) (sign : string -> string -> string)
    (i : nat) (c d : ascii) :
  get_algorithm_by_name ALGORITHM = Some sign ->
  let h := header_segment ALGORITHM in
  let p := payload_segment (issued_claims data (expires_at t0)) in
  let s := base64url_encode (sign SECRET_KEY (h +:+ dot +:+ p)) in
  get_byte i p = Some d -> c <> d ->
  sign SECRET_KEY (h +:+ dot +:+ set_byte i c p)
    <> sign SECRET_KEY (h +:+ dot +:+ p) ->
  create_access_token t0 data = Return ((h +:+ dot +:+ p) +:+ dot +:+ s)
  /\ set_byte i c p <> p
  /\ get_current_user db t ((h +:+ dot +:+ set_byte i c p) +:+ dot +:+ s)
     = Raise (HTTP CredentialException)
  /\ HTTP CredentialException <> HTTP TokenExpiredException.
Proof.
  intros Hs h p s Hget Hcd Hmac. split; [|split; [|split]].
  - by rewrite (create_access_token_issued _ _ _ Hs).
  - by eapply set_byte_changes.
  - apply get_current_user_raise. unfold decode_token_data.
    pose proof (jwt_decode_other_payload sign
                  (issued_claims data (expires_at t0)) (set_byte i c p) t Hs Hmac)
      as Hd.
    cbv zeta in Hd. fold h p s in Hd. by destruct Hd as [-> | ->].
  - done.
Qed.

(** C6 (as amended): every token produced by [create_access_token] is
    [header.payload.signature], where the payload encodes exactly the
    entries of [data] and [exp] (for a login: the subject and the expiry;
    there is no issued-at field) and the signature is the keyed hash of
    the header and payload segments, so that it covers every claim field:
    a token with any other payload segment fails the signature
    verification unless the keyed hash collides. *)
Theorem token_structure (t0 : Z) (data : gmap string string)
    (sign : string -> string -> string) :
  get_algorithm_by_name ALGORITHM = Some sign ->
  let claims := issued_claims data (expires_at t0) in
  let h := header_segment ALGORITHM in
  let p := payload_segment claims in
  let s := base64url_encode (sign SECRET_KEY (h +:+ dot +:+ p)) in
  create_access_token t0 data = Return ((h +:+ dot +:+ p) +:+ dot +:+ s)
  /\ (base64url_decode p ≫= json_loads) = Some claims
  /\ dom claims = {["exp"]} ∪ dom data
  /\ claims !! "exp" = Some (JInt (timegm (expires_at t0)))
  /\ (forall k, k <> "exp" -> claims !! k = JStr <$> data !! k)
  /\ base64url_decode s = Some (sign SECRET_KEY (h +:+ dot +:+ p))
  /\ (forall p' t,
        sign SECRET_KEY (h +:+ dot +:+ p') <> sign SECRET_KEY (h +:+ dot +:+ p) ->
        exists e, jwt_decode ((h +:+ dot +:+ p') +:+ dot +:+ s)
                    SECRET_KEY [ALGORITHM] t = Raise (Jwt e)
                  /\ e <> ExpiredSignatureError).
Proof.
  intros Hs claims h p s. repeat split.
  - by rewrite (create_access_token_issued _ _ _ Hs).
  - unfold p, payload_segment. rewrite base64url_decode_encode.
    apply json_loads_dumps, issued_claims_plain.
  - unfold claims, issued_claims. by rewrite dom_insert_L, dom_fmap_L.
  - apply issued_claims_lookup_exp.
  - intros k Hk. by apply issued_claims_lookup_ne.
  - apply base64url_decode_encode.
  - intros p' t Hmac.
    destruct (jwt_decode_other_payload sign claims p' t Hs Hmac) as [Hd | Hd];
      eexists; (split; [exact Hd | done]).
Qed.

(** Two outcomes of [get_current_user] that a caller cannot tell apart by
    the error raised or by the identity of the user returned. *)
Definition same_outcome (r1 r2 : result UserRecord) : Prop :=
  match r1, r2 with
  | Return u1, Return u2 =>
      id u1 = id u2 /\ email u1 = email u2 /\ password u1 = password u2
  | Raise e1, Raise e2 => e1 = e2
  | _, _ => False
  end.

(** C9 (as amended): after a successful
    [add_access_token_blacklist(token, user)], a second call with the same
    arguments either raises the store's [UniqueViolationError], which the
    function does not handle, and leaves the database as it was (when the
    schema declares the token unique), or succeeds and stores a second row
    for the token (when it does not); in both cases every later
    [get_current_user] has the same outcome as before the second call. *)
Theorem second_revocation (db db1 : Database) (tok : string) (user : UserRecord) :
  add_access_token_blacklist db tok user = (Return tt, db1) ->
  exists r db2,
    add_access_token_blacklist db1 tok user = (r, db2)
    /\ (token_unique = true -> r = Raise UniqueViolationError /\ db2 = db1)
    /\ (token_unique = false ->
        r = Return tt
        /\ db2 = mkDatabase (users db1)
                   (blacklist db1 ++ [mkJwtBlacklist tok (id user)]))
    /\ forall t tok',
         same_outcome (get_current_user db2 t tok') (get_current_user db1 t tok').
Proof.
  intros Hadd. unfold add_access_token_blacklist in Hadd.
  destruct (JWTBlacklist_create db tok (id user)) as [[row|e] db0] eqn:Hc;
    [|done].
  injection Hadd as <-. apply create_success in Hc as (-> & -> & Hu & _).
  set (row := mkJwtBlacklist tok (id user)).
  set (db1 := mkDatabase (users db) (blacklist db ++ [row])).
  assert (existsb (fun e => String.eqb (token e) tok) (blacklist db1) = true)
    as Hin.
  { unfold db1. cbn [blacklist]. rewrite existsb_app. cbn [existsb row token].
    by rewrite String.eqb_refl, orb_true_r. }
  assert (forall r, same_outcome r r) as Hrefl.
  { intros [u|e]; cbn; done. }
  unfold add_access_token_blacklist, JWTBlacklist_create.
  change (users db1) with (users db). rewrite Hu, Hin. cbn [negb].
  destruct token_unique; cbn [andb].
  - eexists _, _. split; [done|]. split; [done|]. split; [done|].
    intros t tok'. apply Hrefl.
  - eexists _, _. split; [done|]. split; [done|]. split; [done|].
    intros t tok'. unfold get_current_user.
    destruct (decode_token_data t tok') as [email_|e]; [|done].
    cbn [mbind result_bind]. unfold User_find_first. subst db1 row.
    cbn [users blacklist].
    destruct (List.find _ (users db)) as [r|]; [|by cbn].
    cbn [fmap option_fmap option_map to_record jwt_blacklist].
    unfold blacklist_of. cbn [blacklist].
    rewrite !List.filter_app, !any_app.
    destruct (any (List.filter _ (List.filter _ (blacklist db))));
      destruct (any (List.filter _ (List.filter _ [_]))); by cbn.
Qed.

End SecurityProperties.

(** * Reference instances

    One instance of each parameter, showing that the laws assumed of the
    libraries can be met and giving every theorem above a concrete input to
    run on.  The codecs are small injective encodings, not base64 or JSON;
    the keyed hash is free of collisions by construction. *)

#[global] Instance json_value_eq_dec : EqDecision json_value.
Proof. solve_decision. Defined.

#[global] Instance json_value_countable : Countable json_value.
Proof.
  refine (inj_countable'
    (fun v => match v with
              | JNull => inl (inl tt) | JBool b => inl (inr b)
              | JInt n => inr (inl n) | JStr s => inr (inr (inl s))
              | JOther t => inr (inr (inr t)) end)
    (fun x => match x with
              | inl (inl _) => JNull | inl (inr b) => JBool b
              | inr (inl n) => JInt n | inr (inr (inl s)) => JStr s
              | inr (inr (inr t)) => JOther t end) _).
  by intros [].
Defined.

Fixpoint bits_of_pos (p : positive) : string :=
  match p with
  | xH => EmptyString
  | xO q => String "0" (bits_of_pos q)
  | xI q => String "1" (bits_of_pos q)
  end.

Fixpoint pos_of_bits (s : string) : option positive :=
  match s with
  | EmptyString => Some xH
  | String c s' =>
      q ← pos_of_bits s';
      if Ascii.eqb c "0" then Some (xO q)
      else if Ascii.eqb c "1" then Some (xI q) else None
  end.

(** A text for any countable value: the bits of its code. *)
Definition ref_dumps {A} `{Countable A} (x : A) : string := bits_of_pos (encode x).
Definition ref_loads {A} `{Countable A} (s : string) : option A :=
  pos_of_bits s ≫= decode.

(** An encoding without dots: a dot is written [-_], a dash [--]. *)
Fixpoint ref_b64encode (s : string) : string :=
  match s with
  | EmptyString => EmptyString
  | String c s' =>
      if Ascii.eqb c "." then String "-" (String "_" (ref_b64encode s'))
      else if Ascii.eqb c "-" then String "-" (String "-" (ref_b64encode s'))
      else String c (ref_b64encode s')
  end.

Fixpoint ref_b64decode_from (pending : bool) (s : string) : option string :=
  match s with
  | EmptyString => if pending then None else Some EmptyString
  | String c s' =>
      if pending then
        if Ascii.eqb c "_" then String "."%char <$> ref_b64decode_from false s'
        else if Ascii.eqb c "-" then String "-"%char <$> ref_b64decode_from false s'
        else None
      else if Ascii.eqb c "-" then ref_b64decode_from true s'
      else if Ascii.eqb c "." then None
      else String c <$> ref_b64decode_from false s'
  end.

(** The keyed hash of the reference instance: key and message, as they are. *)
Definition ref_sign (key msg : string) : string := key +:+ msg.

(** A digest of 30 characters read off the secret, and a final ".". *)
Fixpoint ref_digest_chars (n : nat) (s : string) : string :=
  match n with
  | O => String "." EmptyString
  | S n' =>
      match s with
      | EmptyString => String "." (ref_digest_chars n' EmptyString)
      | String c s' =>
          String (bcrypt64_char (N.of_nat (nat_of_ascii c) mod 64))
            (ref_digest_chars n' s')
      end
  end.

Lemma pos_of_bits_of_pos p : pos_of_bits (bits_of_pos p) = Some p.
Proof. induction p as [p IH|p IH|]; cbn; rewrite ?IH; done. Qed.

Lemma ref_loads_dumps {A} `{Countable A} (x : A) : ref_loads (ref_dumps x) = Some x.
Proof.
  unfold ref_loads, ref_dumps. rewrite pos_of_bits_of_pos. apply decode_encode.
Qed.

Lemma ref_b64decode_encode s : ref_b64decode_from false (ref_b64encode s) = Some s.
Proof.
  induction s as [|c s IH]; [done|]. cbn [ref_b64encode].
  destruct (Ascii.eqb c ".") eqn:E1.
  - apply Ascii.eqb_eq in E1 as ->. cbn. by rewrite IH.
  - destruct (Ascii.eqb c "-") eqn:E2.
    + apply Ascii.eqb_eq in E2 as ->. cbn. by rewrite IH.
    + cbn [ref_b64decode_from]. by rewrite E2, E1, IH.
Qed.

Lemma ref_b64encode_no_dot s : str_mem "." (ref_b64encode s) = false.
Proof.
  induction s as [|c s IH]; [done|]. cbn [ref_b64encode].
  destruct (Ascii.eqb c ".") eqn:E1; [by cbn|].
  destruct (Ascii.eqb c "-") eqn:E2; [by cbn|].
  cbn [str_mem]. by rewrite IH, Ascii.eqb_sym, E1.
Qed.

Lemma ref_digest_chars_ok n s :
  String.length (ref_digest_chars n s) = S n
  /\ str_forallb in_bcrypt64 (ref_digest_chars n s) = true
  /\ repair_checksum (ref_digest_chars n s) = ref_digest_chars n s.
Proof.
  revert s. induction n as [|n IH]; intros s; [done|].
  assert (forall c t,
    String.length (String c (ref_digest_chars n t)) = S (S n)
    /\ (in_bcrypt64 c = true ->
        str_forallb in_bcrypt64 (String c (ref_digest_chars n t)) = true)
    /\ repair_checksum (String c (ref_digest_chars n t))
       = String c (ref_digest_chars n t)) as Hstep.
  { intros c t. destruct (IH t) as (Hl & Hc & Hr). split; [|split].
    - cbn [String.length]. by rewrite Hl.
    - intros Hin. cbn [str_forallb]. by rewrite Hin, Hc.
    - unfold repair_checksum in *.
      destruct (ref_digest_chars n t) as [|e u] eqn:E; [done|].
      rewrite map_last_cons. by rewrite Hr. }
  cbn [ref_digest_chars]. destruct s as [|c s].
  - destruct (Hstep "."%char EmptyString) as (? & Hc & ?). auto.
  - destruct (Hstep (bcrypt64_char (N.of_nat (nat_of_ascii c) mod 64)) s)
      as (? & Hc & ?).
    split; [done|]. split; [|done]. apply Hc, bcrypt64_char_ok.
Qed.

#[global] Instance ref_bcrypt : BcryptBackend.
Proof.
  refine {| bcrypt_digest := fun _ _ salt secret =>
              ref_digest_chars 30 (secret +:+ salt) |}.
  intros _ _ salt secret. unfold checksum_ok.
  destruct (ref_digest_chars_ok 30 (secret +:+ salt)) as (-> & -> & ->).
  by rewrite String.eqb_refl.
Defined.

#[global] Instance ref_jwt : JwtBackend.
Proof.
  refine {| base64url_encode := ref_b64encode;
            base64url_decode := ref_b64decode_from false;
            json_dumps := ref_dumps;
            json_loads := ref_loads;
            get_algorithm_by_name := fun name =>
              if String.eqb name "HS256" then Some ref_sign else None;
            int_of_str := fun _ => None;
            int_of_other := fun _ => IntTypeError;
            bool_of_other := fun _ => true |}.
  - apply ref_b64decode_encode.
  - apply ref_b64encode_no_dot.
  - intros obj _. apply ref_loads_dumps.
  - done.
Defined.

(** Settings with a lifetime of one minute; the schema with and without the
    unique constraint on [JwtBlacklist.token]. *)
Definition ref_imports (unique : bool) : Imports :=
  {| SECRET_KEY := "secret-key";
     ALGORITHM := "HS256";
     ACCESS_TOKEN_EXPIRE_MINUTES := 1;
     TokenData_of_json := fun _ => Raise TypeError;
     token_unique := unique |}.

#[global] Instance ref_imports_unique : Imports := ref_imports true.

Definition alice_email : string := "a@x.com".
Definition bob_email : string := "b@x.com".

(** Two users; alice's password is "secret", hashed with the salt drawn
    from 0. *)
Definition alice_hash : string :=
  match generate_password_hash 0 "secret" with
  | Return h => h
  | Raise _ => EmptyString
  end.

Definition ref_db : Database :=
  {| users := [mkUserRow 1 alice_email alice_hash;
               mkUserRow 2 bob_email alice_hash];
     blacklist := [] |}.

Definition alice : UserRecord := mkUser 1 alice_email alice_hash None.
Definition bob : UserRecord := mkUser 2 bob_email alice_hash None.

Definition ref_data : gmap string string := {["sub" := alice_email]}.

(** Alice's token, issued half a second after the epoch. *)
Definition ref_token : string := issued_token ref_sign 500000 ref_data.

Lemma ref_sign_inj key a b : ref_sign key a = ref_sign key b -> a = b.
Proof. apply str_app_inv_head. Qed.

(** The segments of [ref_token]. *)
Definition ref_header_segment : string := header_segment ALGORITHM.
Definition ref_payload_segment : string :=
  payload_segment (issued_claims ref_data (expires_at 500000)).
Definition ref_signature_segment : string :=
  base64url_encode
    (ref_sign SECRET_KEY (ref_header_segment +:+ dot +:+ ref_payload_segment)).

(** [ref_token] with the first byte of its payload segment changed. *)
Definition tampered_token : string :=
  (ref_header_segment +:+ dot +:+ set_byte 0 "X" ref_payload_segment)
    +:+ dot +:+ ref_signature_segment.

(** A token, validly signed, with no subject. *)
Definition anonymous_token : string := issued_token ref_sign 0 ∅.

(** The database after alice revoked her token. *)
Definition revoked_db : Database :=
  snd (add_access_token_blacklist ref_db ref_token alice).

Lemma ref_algorithm : get_algorithm_by_name ALGORITHM = Some ref_sign.
Proof. reflexivity. Qed.

(** * The claims at concrete inputs *)

(** C1, witness: alice logs in, resolves her token and revokes it;
    resolving it afterwards raises the expired-token error although the
    token has not expired. *)
Lemma revoked_token_is_expired_witness :
  add_access_token_blacklist ref_db ref_token alice = (Return tt, revoked_db)
  /\ get_current_user ref_db 1000 ref_token
     = Return (mkUser 1 alice_email alice_hash (Some []))
  /\ get_current_user revoked_db 2000 ref_token
     = Raise (HTTP TokenExpiredException)
  /\ create_access_token 500000 {["sub" := email alice]} = Return ref_token
  /\ (forall t, get_current_user revoked_db t ref_token
                = Raise (HTTP TokenExpiredException)).
Proof.
  assert (add_access_token_blacklist ref_db ref_token alice
          = (Return tt, revoked_db)) as Hadd by (vm_compute; reflexivity).
  assert (get_current_user ref_db 1000 ref_token
          = Return (mkUser 1 alice_email alice_hash (Some []))) as Hres
    by (vm_compute; reflexivity).
  assert (create_access_token 500000 {["sub" := email alice]} = Return ref_token)
    as Htok by (vm_compute; reflexivity).
  destruct (revoked_token_is_expired ref_db revoked_db ref_token alice Hadd)
    as [Hresolved Hissued].
  split; [exact Hadd|]. split; [exact Hres|]. split.
  - apply (Hresolved 1000 2000 _ Hres); [reflexivity | lia].
  - split; [exact Htok|].
    apply (Hissued 500000 alice); [reflexivity | reflexivity | exact Htok].
Defined.

(** C2, witness: the token issued at 0.5 s with a lifetime of one minute is
    accepted at 0.001 s and refused as expired at 60 s. *)
Lemma token_expiry_window_witness :
  create_access_token 500000 ref_data = Return ref_token
  /\ decode_token_data 1000 ref_token <> Raise (HTTP TokenExpiredException)
  /\ get_current_user ref_db 60000000 ref_token
     = Raise (HTTP TokenExpiredException).
Proof.
  assert (create_access_token 500000 ref_data = Return ref_token) as Htok
    by (vm_compute; reflexivity).
  split; [exact Htok|]. split.
  - apply (token_expiry_window ref_db 500000 1000 ref_data ref_token
             eq_refl eq_refl eq_refl Htok).
    vm_compute; reflexivity.
  - apply (token_expiry_window ref_db 500000 60000000 ref_data ref_token
             eq_refl eq_refl eq_refl Htok).
    vm_compute. discriminate.
Defined.

(** C2, counterexample: the token issued at 0.5 s with a lifetime of one
    minute is refused as expired at 60.2 s, strictly before 0.5 s + 1 min. *)
Lemma token_expires_early_counterexample :
  create_access_token 500000 ref_data = Return ref_token
  /\ 60200000 < 500000 + timedelta_minutes ACCESS_TOKEN_EXPIRE_MINUTES
  /\ decode_token_data 60200000 ref_token = Raise (HTTP TokenExpiredException)
  /\ get_current_user ref_db 60200000 ref_token
     = Raise (HTTP TokenExpiredException).
Proof. repeat split; vm_compute; reflexivity. Qed.

(** C3, witness: [ref_token] with the first payload byte replaced. *)
Lemma tampered_payload_is_invalid_witness :
  set_byte 0 "X" ref_payload_segment <> ref_payload_segment
  /\ get_current_user ref_db 1000 tampered_token
     = Raise (HTTP CredentialException).
Proof.
  assert (get_byte 0 ref_payload_segment = Some "0"%char) as Hget
    by (vm_compute; reflexivity).
  assert ("X"%char <> "0"%char) as Hne by discriminate.
  assert (set_byte 0 "X" ref_payload_segment <> ref_payload_segment) as Hchg
    by exact (set_byte_changes 0 "X" ref_payload_segment "0" Hget Hne).
  split; [exact Hchg|].
  apply (tampered_payload_is_invalid ref_db 500000 1000 ref_data ref_sign
           0 "X" "0" ref_algorithm Hget Hne).
  intros Heq. apply ref_sign_inj, str_app_inv_head, str_app_inv_head in Heq.
  exact (Hchg Heq).
Defined.



(** C5, witness: alice logs in at 0.5 s and resolves her token at 0.001 s. *)
Lemma login_then_resolve_witness :
  exists tok,
    login_for_access_token ref_db 500000 alice_email "secret"
    = Return (<["token_type" := "bearer"]> {["access_token" := tok]})
    /\ tok <> EmptyString
    /\ get_current_user ref_db 1000 tok
       = Return (mkUser 1 alice_email alice_hash (Some [])).
Proof.
  destruct (login_then_resolve ref_db 500000 alice_email "secret" alice)
    as (tok & Hlogin & Hne & Hres).
  - reflexivity.
  - vm_compute; reflexivity.
  - eexists. reflexivity.
  - exists tok. split; [exact Hlogin|]. split; [exact Hne|].
    destruct (Hres 1000) as [_ Hget]; [vm_compute; reflexivity|].
    apply Hget. reflexivity.
Defined.

(** C6, witness: the structure of [ref_token]. *)
Lemma token_structure_witness :
  create_access_token 500000 ref_data = Return ref_token
  /\ dom (issued_claims ref_data (expires_at 500000)) = {["exp"]} ∪ dom ref_data
  /\ base64url_decode ref_signature_segment
     = Some (ref_sign SECRET_KEY
               (ref_header_segment +:+ dot +:+ ref_payload_segment)).
Proof.
  destruct (token_structure 500000 ref_data ref_sign ref_algorithm)
    as (Htok & _ & Hdom & _ & _ & Hsig & _).
  split; [exact Htok|]. split; [exact Hdom | exact Hsig].
Defined.

(** C6, counterexample: the payload of the token a login issues has the
    fields "sub" and "exp" and no issued-at field. *)
Lemma token_has_no_issued_at_counterexample :
  create_access_token 500000 ref_data = Return ref_token
  /\ jwt_decode ref_token SECRET_KEY [ALGORITHM] 1000
     = Return (<["exp" := JInt 60]> {["sub" := JStr alice_email]})
  /\ (<["exp" := JInt 60]> {["sub" := JStr alice_email]}
        : gmap string json_value) !! "iat" = None.
Proof. repeat split; vm_compute; reflexivity. Qed.

(** C7, witness: the password "secret". *)
Lemma verify_generated_hash_witness :
  acceptable_secret "secret"
  /\ exists h, generate_password_hash 0 "secret" = Return h
               /\ verify_password "secret" h = Return true.
Proof.
  assert (acceptable_secret "secret") as Hok.
  { split; [vm_compute; lia | reflexivity]. }
  split; [exact Hok|]. exact (verify_generated_hash 0 "secret" Hok).
Defined.

(** C7, counterexample: a password holding a NUL byte is not hashed. *)
Lemma nul_password_counterexample :
  generate_password_hash 0 (String zero "secret") = Raise PasswordValueError
  /\ (h ← generate_password_hash 0 (String zero "secret");
      verify_password (String zero "secret") h) <> Return true.
Proof. split; [vm_compute; reflexivity | vm_compute; discriminate]. Qed.

(** C8, witness: a string that is no hash, a string with a bcrypt ident
    that is too short, and alice's hash. *)
Lemma verify_password_malformed_raises_witness :
  verify_password "secret" "not-a-hash" = Raise UnknownHashError
  /\ (exists e, verify_password "secret" "$2b$12$tooshort" = Raise e
                /\ is_ValueError e = true)
  /\ exists b, verify_password "wrong" alice_hash = Return b.
Proof.
  split; [|split].
  - apply (verify_password_malformed_raises "secret" "not-a-hash"). reflexivity.
  - apply (verify_password_malformed_raises "secret" "$2b$12$tooshort").
    reflexivity.
  - apply (verify_password_malformed_raises "wrong" alice_hash).
    + vm_compute; reflexivity.
    + split; [vm_compute; lia | reflexivity].
Defined.

(** C8, counterexample: [verify_password] raises on malformed hashes. *)
Lemma malformed_hash_counterexample :
  verify_password "secret" "not-a-hash" = Raise UnknownHashError
  /\ verify_password "secret" "$2b$12$tooshort" = Raise MalformedHashError
  /\ verify_password "secret" "" = Raise UnknownHashError.
Proof. repeat split; vm_compute; reflexivity. Qed.

(** C9, witness: alice revokes her token twice, the token being unique. *)
Lemma second_revocation_witness :
  add_access_token_blacklist revoked_db ref_token alice
  = (Raise UniqueViolationError, revoked_db).
Proof.
  destruct (second_revocation ref_db revoked_db ref_token alice)
    as (r & db2 & Hadd & Huniq & _).
  - vm_compute; reflexivity.
  - destruct (Huniq eq_refl) as [-> ->]. exact Hadd.
Defined.

(** C9, counterexample: the second revocation raises an error that nothing
    handles when the token is unique, and stores the token a second time
    when it is not. *)
Lemma second_revocation_counterexample :
  @add_access_token_blacklist (ref_imports true) revoked_db ref_token alice
  = (Raise UniqueViolationError, revoked_db)
  /\ @add_access_token_blacklist (ref_imports false) revoked_db ref_token alice
     = (Return tt,
        mkDatabase (users ref_db)
          [mkJwtBlacklist ref_token 1; mkJwtBlacklist ref_token 1]).
Proof. split; vm_compute; reflexivity. Qed.

(** C10, witness: a signed, unexpired token without a subject. *)
Lemma missing_subject_is_credential_error_witness :
  get_current_user ref_db 1000 anonymous_token = Raise (HTTP CredentialException).
Proof.
  apply (missing_subject_is_credential_error ref_db 1000 anonymous_token
           (issued_claims ∅ (expires_at 0))).
  - vm_compute; reflexivity.
  - reflexivity.
Defined.

(** * Further properties of security.py *)

(** [s.count(c)] *)
Fixpoint str_count (c : ascii) (s : string) : nat :=
  match s with
  | EmptyString => O
  | String d s' => ((if Ascii.eqb c d then 1 else 0) + str_count c s')%nat
  end.

Lemma str_count_0 c s : str_count c s = O -> str_mem c s = false.
Proof.
  induction s as [|d s IH]; [done|]. cbn [str_count str_mem].
  destruct (Ascii.eqb c d); [done|]. cbn [orb]. intros Hc. by apply IH.
Qed.

Lemma split_first_no_sep sep s : str_mem sep s = false -> split_first sep s = None.
Proof.
  induction s as [|c s IH]; [done|].
  cbn [str_mem split_first]. intros [Hc Hs]%orb_false_elim.
  by rewrite Ascii.eqb_sym, Hc, (IH Hs).
Qed.

Lemma rsplit_last_count sep s a b :
  rsplit_last sep s = Some (a, b) -> str_count sep s = S (str_count sep a).
Proof.
  revert a. induction s as [|c s IH]; intros a; [done|]. cbn [rsplit_last].
  destruct (rsplit_last sep s) as [[a' b']|] eqn:E.
  - intros [= <- <-]. cbn [str_count]. rewrite (IH a' eq_refl). lia.
  - destruct (Ascii.eqb c sep) eqn:Ec; [|done]. intros [= <- <-].
    cbn [str_count]. rewrite Ascii.eqb_sym, Ec.
    destruct (str_count sep s) eqn:Hz; [done|].
    exfalso. clear -E Hz. revert n Hz.
    induction s as [|d s IH]; intros n Hz; [done|].
    cbn [rsplit_last str_count] in *.
    destruct (rsplit_last sep s) as [[? ?]|]; [done|].
    destruct (Ascii.eqb d sep) eqn:Ed; [done|].
    rewrite Ascii.eqb_sym, Ed in Hz. cbn in Hz. by eapply IH.
Qed.

Section FurtherProperties.
Context `{BcryptBackend} `{JwtBackend} `{Imports}.

(** A string with fewer than two dots is no token: [jwt.decode] raises
    [DecodeError] whatever the key, the algorithms and the clock. *)
Lemma jwt_decode_too_few_segments tok key alg algs now :
  (str_count "." tok < 2)%nat ->
  jwt_decode tok key (alg :: algs) now = Raise (Jwt DecodeError).
Proof.
  intros Hc. unfold jwt_decode, jws_load.
  destruct (rsplit_last "." tok) as [[si crypto]|] eqn:E; [|done].
  apply rsplit_last_count in E.
  rewrite split_first_no_sep; [done|]. apply str_count_0. lia.
Qed.

(** X1: [get_current_user] on a string with fewer than three dot-separated
    segments fails with [CredentialException], whatever the database and the
    time. *)
Theorem malformed_token_is_credential_error (db : Database) (t : Z) (tok : string) :
  (str_count "." tok < 2)%nat ->
  get_current_user db t tok = Raise (HTTP CredentialException).
Proof.
  intros Hc. apply get_current_user_raise. unfold decode_token_data.
  by rewrite jwt_decode_too_few_segments.
Qed.

(** X2: the [except] clauses of [get_current_user]: when [jwt.decode] raises
    [ExpiredSignatureError] the function raises [TokenExpiredException];
    when it raises any other PyJWT error the function raises
    [CredentialException]; an exception that is no PyJWT error (the
    [TypeError] of [int(None)] on a null claim) is not caught. *)
Theorem decode_errors_are_mapped (db : Database) (t : Z) (tok : string) (e : exn) :
  jwt_decode tok SECRET_KEY [ALGORITHM] t = Raise e ->
  get_current_user db t tok
  = Raise match e with
          | Jwt ExpiredSignatureError => HTTP TokenExpiredException
          | Jwt _ => HTTP CredentialException
          | other => other
          end.
Proof.
  intros Hd. apply get_current_user_raise. unfold decode_token_data.
  rewrite Hd. cbn [mbind result_bind]. by destruct e as [?|[]| | | | | | | | |].
Qed.

(** X3: a token that decodes to a subject no stored user has makes
    [get_current_user] fail with [CredentialException]. *)
Theorem unknown_subject_is_credential_error (db : Database) (t : Z)
    (tok email_ : string) :
  decode_token_data t tok = Return email_ ->
  User_find_first db email_ true = None ->
  get_current_user db t tok = Raise (HTTP CredentialException).
Proof. intros Hd Hf. unfold get_current_user. by rewrite Hd; cbn; rewrite Hf. Qed.

(** X4: what [get_current_user] guarantees of the user it returns: the token
    decoded to a subject, the user is the stored one with that email, its
    blacklist relation is loaded, and no entry of it holds the token. *)
Theorem get_current_user_returns (db : Database) (t : Z) (tok : string)
    (user : UserRecord) :
  get_current_user db t tok = Return user ->
  decode_token_data t tok = Return (email user)
  /\ User_find_first db (email user) true = Some user
  /\ jwt_blacklist user = Some (blacklist_of db (id user))
  /\ Forall (fun x => token x <> tok) (blacklist_of db (id user)).
Proof.
  unfold get_current_user.
  destruct (decode_token_data t tok) as [email_|e]; [|done].
  cbn [mbind result_bind].
  destruct (User_find_first db email_ true) as [u|] eqn:Hf; [|done].
  pose proof Hf as (r & _ & -> & <-)%find_first_row.
  cbn [to_record jwt_blacklist].
  destruct (any _) eqn:Ha; [done|]. intros [= <-].
  cbn [email id jwt_blacklist to_record]. repeat split; try done.
  apply Forall_forall. intros x Hx Heq.
  assert (In x (List.filter (fun x => String.eqb (token x) tok)
                  (blacklist_of db (row_id r)))) as Hin.
  { apply filter_In. split; [by apply list_elem_of_In|]. by apply String.eqb_eq. }
  by destruct (List.filter _ _).
Qed.

End FurtherProperties.
